(** * CircularBuffer: the ring buffer of the pulse sensor firmware

    A shallow embedding of [pulse_sensor/CircularBuffer.h] and
    [pulse_sensor/pulse_sensor/CircularBuffer.cpp].

    The C++ integers are modelled as [Z] with the wrap-around of their
    type written out ([u16], [u32]); the backing array [buffer] is a
    list of packets indexed with stdpp's lookup and insert.  The methods
    run in a small state-and-error monad [M]: the state is the object,
    and [None] stands for undefined behaviour of the C++ program (an
    array access out of bounds, a remainder by zero).  The critical
    section ([portENTER_CRITICAL] / [portEXIT_CRITICAL]) makes each
    method body atomic; the embedding is the sequential semantics of one
    such body. *)

From stdpp Require Import base decidable option numbers list.
From Stdlib Require Import ZArith Lia.

Local Open Scope Z_scope.

(** ** Data model *)

(** [struct DataPacket { uint32_t id; uint32_t timestamp; int16_t value; }] *)
Record DataPacket : Type := mkDataPacket {
  id : Z;
  timestamp : Z;
  value : Z
}.

#[global] Instance DataPacket_eq_dec : EqDecision DataPacket.
Proof. solve_decision. Defined.

(** The private fields of [class CircularBuffer] (the [mutex] carries no
    data of the sequential semantics). *)
Record CircularBuffer : Type := mkCircularBuffer {
  buffer : list DataPacket;
  bufferSize : Z;
  head : Z;
  tail : Z;
  count : Z;
  ID : Z
}.

#[global] Instance CircularBuffer_eq_dec : EqDecision CircularBuffer.
Proof. solve_decision. Defined.

(** Conversion to [uint16_t] and to [uint32_t]. *)
Definition u16 (x : Z) : Z := x mod 2 ^ 16.
Definition u32 (x : Z) : Z := x mod 2 ^ 32.

(** Field updates. *)
Definition with_id (x : Z) (p : DataPacket) : DataPacket :=
  mkDataPacket x (timestamp p) (value p).
Definition with_timestamp (x : Z) (p : DataPacket) : DataPacket :=
  mkDataPacket (id p) x (value p).
Definition with_value (x : Z) (p : DataPacket) : DataPacket :=
  mkDataPacket (id p) (timestamp p) x.

Definition with_buffer (l : list DataPacket) (b : CircularBuffer) : CircularBuffer :=
  mkCircularBuffer l (bufferSize b) (head b) (tail b) (count b) (ID b).
Definition with_head (x : Z) (b : CircularBuffer) : CircularBuffer :=
  mkCircularBuffer (buffer b) (bufferSize b) x (tail b) (count b) (ID b).
Definition with_tail (x : Z) (b : CircularBuffer) : CircularBuffer :=
  mkCircularBuffer (buffer b) (bufferSize b) (head b) x (count b) (ID b).
Definition with_count (x : Z) (b : CircularBuffer) : CircularBuffer :=
  mkCircularBuffer (buffer b) (bufferSize b) (head b) (tail b) x (ID b).
Definition with_ID (x : Z) (b : CircularBuffer) : CircularBuffer :=
  mkCircularBuffer (buffer b) (bufferSize b) (head b) (tail b) (count b) x.

(** ** The monad of method bodies *)

Definition M (A : Type) : Type := CircularBuffer -> option (A * CircularBuffer).

Definition ret {A} (a : A) : M A := fun b => Some (a, b).

Definition bind {A B} (m : M A) (k : A -> M B) : M B :=
  fun b => match m b with
           | Some (a, b') => k a b'
           | None => None
           end.

(** Undefined behaviour. *)
Definition undefined {A} : M A := fun _ => None.

Declare Scope cb_scope.
Delimit Scope cb_scope with cb.
Notation "'let*' x ':=' m 'in' k" := (bind m (fun x => k))
  (at level 10, x name, m at level 100, k at level 200) : cb_scope.
Notation "m ';;;' k" := (bind m (fun _ => k))
  (at level 100, k at level 200, right associativity) : cb_scope.

(** Reading a field of [this]. *)
Definition get {A} (f : CircularBuffer -> A) : M A := fun b => Some (f b, b).

(** Assigning a field of [this]. *)
Definition put (upd : CircularBuffer -> CircularBuffer) : M unit :=
  fun b => Some (tt, upd b).

(** [a % n] on [int]: the operands are [uint16_t] values promoted to
    [int], the quotient truncates towards zero, and a zero divisor is
    undefined. *)
Definition c_rem (a n : Z) : M Z :=
  if decide (n = 0) then undefined else ret (Z.rem a n).

(** [buffer[i]] as an rvalue: defined inside the allocation only. *)
Definition load (i : Z) : M DataPacket :=
  fun b => if decide (0 <= i)
           then match buffer b !! Z.to_nat i with
                | Some p => Some (p, b)
                | None => None
                end
           else None.

(** [buffer[i].field = x]: defined inside the allocation only. *)
Definition store (i : Z) (upd : DataPacket -> DataPacket) : M unit :=
  fun b => if decide (0 <= i)
           then match buffer b !! Z.to_nat i with
                | Some p => Some (tt, with_buffer (<[Z.to_nat i := upd p]> (buffer b)) b)
                | None => None
                end
           else None.

(** ** The methods *)

Local Open Scope cb_scope.

(** [CircularBuffer::CircularBuffer(uint16_t size)].  [new DataPacket[n]]
    leaves the slots uninitialised: [fresh] gives the indeterminate
    content of slot [i] of the new allocation.  The in-class initialisers
    set [head], [tail], [count] and [ID] to 0.  The result is an option
    so that a rejected construction ([None]) can be told from a buffer;
    the body has no such path and validates nothing. *)
Definition CircularBuffer_new (size : Z) (fresh : nat -> DataPacket)
  : option CircularBuffer :=
  Some (mkCircularBuffer (map fresh (seq 0 (Z.to_nat size))) size 0 0 0 0).

(** [bool CircularBuffer::write(int16_t value, uint32_t time)] *)
Definition write (value time : Z) : M bool :=
  let* h := get head in
  let* i := get ID in
  store h (with_id i) ;;;
  store h (with_timestamp time) ;;;
  store h (with_value value) ;;;
  let* n := get bufferSize in
  let* h' := c_rem (h + 1) n in
  put (with_head (u16 h')) ;;;
  put (with_ID (u32 (i + 1))) ;;;
  let* c := get count in
  if decide (c < n) then
    put (with_count (u16 (c + 1))) ;;;
    ret false
  else
    let* t := get tail in
    let* t' := c_rem (t + 1) n in
    put (with_tail (u16 t')) ;;;
    ret true.

(** [bool CircularBuffer::read(DataPacket* packet)].  The caller's
    [*packet] is passed in and handed back next to the result. *)
Definition read (packet : DataPacket) : M (bool * DataPacket) :=
  let* c := get count in
  if decide (c > 0) then
    let* t := get tail in
    let* p := load t in
    let* n := get bufferSize in
    let* t' := c_rem (t + 1) n in
    put (with_tail (u16 t')) ;;;
    put (with_count (u16 (c - 1))) ;;;
    ret (true, p)
  else
    ret (false, packet).

(** [uint16_t CircularBuffer::available()] *)
Definition available : M Z :=
  let* c := get count in
  ret c.

Local Close Scope cb_scope.

(** ** Callers *)

(** A call of one public method; [Read] passes the caller's current
    packet variable. *)
Inductive op : Type :=
  | Write (value time : Z)
  | Read
  | Available.

(** What a call hands back. *)
Inductive answer : Type :=
  | Overflow (flag : bool)
  | Success (flag : bool)
  | Count (n : Z).

(** One call: the answer, the caller's packet variable and the object
    after the call. *)
Definition step (o : op) (packet : DataPacket) (b : CircularBuffer)
  : option (answer * DataPacket * CircularBuffer) :=
  match o with
  | Write v t =>
      match write v t b with
      | Some (f, b') => Some (Overflow f, packet, b')
      | None => None
      end
  | Read =>
      match read packet b with
      | Some ((f, p), b') => Some (Success f, p, b')
      | None => None
      end
  | Available =>
      match available b with
      | Some (n, b') => Some (Count n, packet, b')
      | None => None
      end
  end.

(** A sequence of calls, with the answers in call order. *)
Fixpoint run (ops : list op) (packet : DataPacket) (b : CircularBuffer)
  : option (list answer * DataPacket * CircularBuffer) :=
  match ops with
  | [] => Some ([], packet, b)
  | o :: ops' =>
      match step o packet b with
      | Some (a, packet', b') =>
          match run ops' packet' b' with
          | Some (answers, packet'', b'') => Some (a :: answers, packet'', b'')
          | None => None
          end
      | None => None
      end
  end.

(** The consumer's loop [while (cb.read(&packet)) { ... }], collecting
    the packets it reads.  [fuel] bounds the number of calls; [None] is
    fuel exhausted or an undefined [read]. *)
Fixpoint drain (fuel : nat) (packet : DataPacket) (b : CircularBuffer)
  : option (list DataPacket * CircularBuffer) :=
  match fuel with
  | O => None
  | S fuel' =>
      match read packet b with
      | Some ((true, p), b') =>
          match drain fuel' p b' with
          | Some (ps, b'') => Some (p :: ps, b'')
          | None => None
          end
      | Some ((false, _), b') => Some ([], b')
      | None => None
      end
  end.

(** ** Specification devices *)

(** The class invariant: the fields hold values of their C++ types, the
    allocation has [bufferSize] slots, both indices point into it and
    [count] slots starting at [tail] end at [head]. *)
Record wf (b : CircularBuffer) : Prop := mkWf {
  wf_size : 0 < bufferSize b < 2 ^ 16;
  wf_alloc : Z.of_nat (length (buffer b)) = bufferSize b;
  wf_head : 0 <= head b < bufferSize b;
  wf_tail : 0 <= tail b < bufferSize b;
  wf_count : 0 <= count b <= bufferSize b;
  wf_link : head b = (tail b + count b) mod bufferSize b;
  wf_ID : 0 <= ID b < 2 ^ 32
}.

(** The [n] slots met by [n] successive reads starting at index [t] of an
    array [l] with [cap] slots.  An index outside the array would end the
    list; under [wf] there is none ([live_length]). *)
Fixpoint live (l : list DataPacket) (cap t : Z) (n : nat) : list DataPacket :=
  match n with
  | O => []
  | S n' =>
      match l !! Z.to_nat t with
      | Some p => p :: live l cap ((t + 1) mod cap) n'
      | None => []
      end
  end.

(** The stored records, oldest first. *)
Definition contents (b : CircularBuffer) : list DataPacket :=
  live (buffer b) (bufferSize b) (tail b) (Z.to_nat (count b)).

(** The record that [write value time] stores when the counter is [i]. *)
Definition packet_of (i : Z) (w : Z * Z) : DataPacket :=
  mkDataPacket i (snd w) (fst w).

(** The records stored by writing the (value, timestamp) pairs [ws] in
    order, the counter starting at [i]. *)
Fixpoint packets_from (i : Z) (ws : list (Z * Z)) : list DataPacket :=
  match ws with
  | [] => []
  | w :: ws' => packet_of i w :: packets_from (u32 (i + 1)) ws'
  end.

(** Strictly increasing lists of integers. *)
Fixpoint increasing (l : list Z) : Prop :=
  match l with
  | [] => True
  | x :: l' => match l' with
               | [] => True
               | y :: _ => x < y
               end /\ increasing l'
  end.

(** The number of [Write] calls in a sequence of calls. *)
Fixpoint writes_in (ops : list op) : Z :=
  match ops with
  | [] => 0
  | Write _ _ :: ops' => 1 + writes_in ops'
  | _ :: ops' => writes_in ops'
  end.

(** The calls [write] of the pairs [ws], in order. *)
Definition writes_of (ws : list (Z * Z)) : list op :=
  map (fun w => Write (fst w) (snd w)) ws.

(** The object after [write value time], spelled out. *)
Definition written (v t : Z) (b : CircularBuffer) : CircularBuffer :=
  mkCircularBuffer
    (<[Z.to_nat (head b) := mkDataPacket (ID b) t v]> (buffer b))
    (bufferSize b)
    ((head b + 1) mod bufferSize b)
    (if decide (count b < bufferSize b) then tail b else (tail b + 1) mod bufferSize b)
    (if decide (count b < bufferSize b) then count b + 1 else count b)
    (u32 (ID b + 1)).

(** The object after a successful [read], spelled out. *)
Definition consumed (b : CircularBuffer) : CircularBuffer :=
  mkCircularBuffer (buffer b) (bufferSize b) (head b)
    ((tail b + 1) mod bufferSize b) (count b - 1) (ID b).

(** The object once the consumer's loop has read every record. *)
Definition drained (b : CircularBuffer) : CircularBuffer :=
  mkCircularBuffer (buffer b) (bufferSize b) (head b) (head b) 0 (ID b).

(** ** Concrete objects *)

Definition zero_packet : DataPacket := mkDataPacket 0 0 0.

(** A new allocation that happens to hold zeros. *)
Definition blank : nat -> DataPacket := fun _ => zero_packet.

(** A buffer of capacity 2 as the constructor leaves it. *)
Definition two_slots : CircularBuffer :=
  mkCircularBuffer [zero_packet; zero_packet] 2 0 0 0 0.

(** The same buffer after [write 7 100]. *)
Definition one_stored : CircularBuffer :=
  mkCircularBuffer [mkDataPacket 0 100 7; zero_packet] 2 1 0 1 1.

(** An empty buffer of capacity 2 whose counter holds the largest
    [uint32_t]: the state after 4294967295 rounds of one [write] and one
    [read]. *)
Definition about_to_wrap : CircularBuffer :=
  mkCircularBuffer [mkDataPacket 4294967294 0 0; mkDataPacket 4294967293 0 0]
                   2 1 1 0 4294967295.

(** One round of the producer and the consumer: [write 0 0], then
    [read]. *)
Definition round : list op := [Write 0 0; Read].

(** [2 * j + 3] rounds: two, then [j] pairs, then one. *)
Definition rounds (j : nat) : list op :=
  (round ++ round) ++ concat (replicate j (round ++ round)) ++ round.

(** The buffer of capacity 2 after [2 * n] rounds, for [n >= 1] and
    before the counter wraps. *)
Definition after_rounds (n : Z) : CircularBuffer :=
  mkCircularBuffer [mkDataPacket (2 * n - 2) 0 0; mkDataPacket (2 * n - 1) 0 0]
                   2 0 0 0 (2 * n).

(** ** A bounded queue, for comparison *)

(** The queue that the ring is meant to be: the stored records, oldest
    first, next to the identifier counter.  A [Write] appends, after
    dropping the oldest record when [cap] records are stored; a [Read]
    takes the oldest record. *)
Definition queue_step (cap : Z) (o : op) (packet : DataPacket)
           (q : list DataPacket) (i : Z)
  : answer * DataPacket * list DataPacket * Z :=
  match o with
  | Write v t =>
      if decide (Z.of_nat (length q) < cap)
      then (Overflow false, packet, q ++ [mkDataPacket i t v], u32 (i + 1))
      else (Overflow true, packet, drop 1 q ++ [mkDataPacket i t v], u32 (i + 1))
  | Read =>
      match q with
      | [] => (Success false, packet, [], i)
      | p :: q' => (Success true, p, q', i)
      end
  | Available => (Count (Z.of_nat (length q)), packet, q, i)
  end.

Fixpoint queue_run (cap : Z) (ops : list op) (packet : DataPacket)
         (q : list DataPacket) (i : Z)
  : list answer * DataPacket * list DataPacket * Z :=
  match ops with
  | [] => ([], packet, q, i)
  | o :: ops' =>
      let '(a, packet', q', i') := queue_step cap o packet q i in
      let '(answers, packet'', q'', i'') := queue_run cap ops' packet' q' i' in
      (a :: answers, packet'', q'', i'')
  end.

(** The number of writes that reported an overflow, and of reads that
    handed out a record, among the answers of a sequence of calls. *)
Fixpoint overflows (answers : list answer) : Z :=
  match answers with
  | [] => 0
  | Overflow true :: answers' => 1 + overflows answers'
  | _ :: answers' => overflows answers'
  end.

Fixpoint reads_done (answers : list answer) : Z :=
  match answers with
  | [] => 0
  | Success true :: answers' => 1 + reads_done answers'
  | _ :: answers' => reads_done answers'
  end.

(** The identifiers of the stored records of a queue [q] whose counter is
    [i] follow one another and end just before [i], modulo 2^32. *)
Definition ids_consecutive (q : list DataPacket) (i : Z) : Prop :=
  forall (k : nat) p,
    q !! k = Some p -> id p = u32 (i - Z.of_nat (length q) + Z.of_nat k).

(** ** Evaluation on concrete objects *)

Example write_fresh_2 :
  write 7 100 (mkCircularBuffer [mkDataPacket 9 9 9; mkDataPacket 8 8 8] 2 0 0 0 0)
  = Some (false, mkCircularBuffer [mkDataPacket 0 100 7; mkDataPacket 8 8 8] 2 1 0 1 1).
Proof. reflexivity. Qed.

Example write_full_2 :
  write 5 300 (mkCircularBuffer [mkDataPacket 0 100 7; mkDataPacket 1 200 6] 2 0 0 2 2)
  = Some (true, mkCircularBuffer [mkDataPacket 2 300 5; mkDataPacket 1 200 6] 2 1 1 2 3).
Proof. reflexivity. Qed.

Example read_one_2 :
  read (mkDataPacket 9 9 9)
       (mkCircularBuffer [mkDataPacket 0 100 7; mkDataPacket 8 8 8] 2 1 0 1 1)
  = Some ((true, mkDataPacket 0 100 7),
          mkCircularBuffer [mkDataPacket 0 100 7; mkDataPacket 8 8 8] 2 1 1 0 1).
Proof. reflexivity. Qed.

(** A zero-capacity object has no slot to store into. *)
Example write_zero_capacity :
  write 7 100 (mkCircularBuffer [] 0 0 0 0 0) = None.
Proof. reflexivity. Qed.

(** ** The effect of one call *)

Lemma u16_small x : 0 <= x < 2 ^ 16 -> u16 x = x.
Proof. intros H. unfold u16. apply Z.mod_small. exact H. Qed.

Lemma u32_range x : 0 <= u32 x < 2 ^ 32.
Proof. unfold u32. apply Z.mod_pos_bound. lia. Qed.

Lemma rem_is_mod a n : 0 <= a -> 0 < n -> Z.rem a n = a mod n.
Proof. intros Ha Hn. apply Z.rem_mod_nonneg; lia. Qed.

Lemma slot_allocated (l : list DataPacket) (cap i : Z) :
  Z.of_nat (length l) = cap -> 0 <= i < cap -> is_Some (l !! Z.to_nat i).
Proof. intros Hl Hi. apply lookup_lt_is_Some. lia. Qed.

(** [store] inside the allocation. *)
Lemma store_in_bounds i upd b p :
  0 <= i -> buffer b !! Z.to_nat i = Some p ->
  store i upd b = Some (tt, with_buffer (<[Z.to_nat i := upd p]> (buffer b)) b).
Proof.
  intros Hi Hp. unfold store. rewrite decide_True by exact Hi. rewrite Hp. reflexivity.
Qed.

(** The three field stores of [write] amount to one packet store. *)
Lemma three_stores (l : list DataPacket) (k : nat) i t v p :
  l !! k = Some p ->
  exists p1 p2,
    l !! k = Some p /\
    <[k := with_id i p]> l !! k = Some p1 /\
    <[k := with_timestamp t p1]> (<[k := with_id i p]> l) !! k = Some p2 /\
    <[k := with_value v p2]> (<[k := with_timestamp t p1]> (<[k := with_id i p]> l))
    = <[k := mkDataPacket i t v]> l.
Proof.
  intros Hp. pose proof (lookup_lt_Some _ _ _ Hp) as Hk.
  exists (with_id i p), (with_timestamp t (with_id i p)).
  split; [exact Hp|]. split.
  - apply list_lookup_insert_eq. exact Hk.
  - split.
    + apply list_lookup_insert_eq. rewrite length_insert. exact Hk.
    + rewrite !list_insert_insert_eq. reflexivity.
Qed.

Lemma write_eq v t b :
  wf b ->
  write v t b = Some (bool_decide (bufferSize b <= count b), written v t b).
Proof.
  intros [Hsz Hal Hh Ht Hc Hl Hi].
  destruct (slot_allocated (buffer b) (bufferSize b) (head b) Hal Hh) as [p Hp].
  destruct (three_stores (buffer b) (Z.to_nat (head b)) (ID b) t v p Hp)
    as (p1 & p2 & _ & Hp1 & Hp2 & Hins).
  unfold write, bind, get.
  rewrite (store_in_bounds _ _ _ p) by (lia || exact Hp).
  rewrite (store_in_bounds _ _ _ p1) by (simpl; lia || exact Hp1).
  rewrite (store_in_bounds _ _ _ p2) by (simpl; lia || exact Hp2).
  cbn [buffer bufferSize head tail count ID with_buffer].
  rewrite Hins. unfold c_rem.
  rewrite decide_False by lia.
  unfold ret, put. cbn [buffer bufferSize head tail count ID with_buffer with_head with_ID].
  rewrite rem_is_mod by lia.
  assert (Hh' : 0 <= (head b + 1) mod bufferSize b < bufferSize b)
    by (apply Z.mod_pos_bound; lia).
  rewrite (u16_small ((head b + 1) mod bufferSize b)) by lia.
  unfold written.
  destruct (decide (count b < bufferSize b)) as [Hlt|Hge].
  - rewrite bool_decide_eq_false_2 by lia.
    cbn. rewrite u16_small by lia. reflexivity.
  - rewrite bool_decide_eq_true_2 by lia.
    cbn. rewrite decide_False by lia.
    rewrite rem_is_mod by lia.
    assert (Ht' : 0 <= (tail b + 1) mod bufferSize b < bufferSize b)
      by (apply Z.mod_pos_bound; lia).
    cbn. rewrite u16_small by lia. reflexivity.
Qed.

Lemma read_eq packet b :
  wf b -> 0 < count b ->
  exists p, buffer b !! Z.to_nat (tail b) = Some p /\
            read packet b = Some ((true, p), consumed b).
Proof.
  intros [Hsz Hal Hh Ht Hc Hl Hi] Hpos.
  destruct (slot_allocated (buffer b) (bufferSize b) (tail b) Hal Ht) as [p Hp].
  exists p. split; [exact Hp|].
  unfold read, bind, get. rewrite decide_True by lia.
  unfold load. rewrite decide_True by lia. rewrite Hp.
  unfold c_rem. rewrite decide_False by lia. unfold ret, put.
  rewrite rem_is_mod by lia.
  assert (Ht' : 0 <= (tail b + 1) mod bufferSize b < bufferSize b)
    by (apply Z.mod_pos_bound; lia).
  rewrite !u16_small by lia. reflexivity.
Qed.

Lemma read_empty packet b :
  count b = 0 -> read packet b = Some ((false, packet), b).
Proof.
  intros H0. unfold read, bind, get. rewrite decide_False by lia. reflexivity.
Qed.

Lemma available_eq b : available b = Some (count b, b).
Proof. reflexivity. Qed.

(** ** The class invariant *)

Lemma new_wf size fresh :
  0 < size < 2 ^ 16 ->
  exists b, CircularBuffer_new size fresh = Some b /\ wf b /\
            bufferSize b = size /\ count b = 0 /\ ID b = 0.
Proof.
  intros Hsz. eexists. split; [reflexivity|].
  split; [|repeat split].
  constructor; cbn [buffer bufferSize head tail count ID].
  - exact Hsz.
  - rewrite length_map, length_seq. lia.
  - lia.
  - lia.
  - lia.
  - rewrite Z.mod_small by lia. reflexivity.
  - lia.
Qed.

Lemma written_wf v t b : wf b -> wf (written v t b).
Proof.
  intros [Hsz Hal Hh Ht Hc Hl Hi].
  assert (Hn : 0 < bufferSize b) by lia.
  constructor; unfold written; cbn [buffer bufferSize head tail count ID].
  - exact Hsz.
  - rewrite length_insert. exact Hal.
  - apply Z.mod_pos_bound. exact Hn.
  - destruct (decide (count b < bufferSize b)); [exact Ht|].
    apply Z.mod_pos_bound. exact Hn.
  - destruct (decide (count b < bufferSize b)); lia.
  - destruct (decide (count b < bufferSize b)) as [Hlt|Hge].
    + rewrite Hl, Zplus_mod_idemp_l. f_equal. lia.
    + assert (Hfull : count b = bufferSize b) by lia.
      rewrite Hl, Hfull, !Zplus_mod_idemp_l.
      rewrite <- (Z.add_assoc (tail b) 1), (Z.add_comm 1), Z.add_assoc.
      reflexivity.
  - apply u32_range.
Qed.

Lemma consumed_wf b : wf b -> 0 < count b -> wf (consumed b).
Proof.
  intros [Hsz Hal Hh Ht Hc Hl Hi] Hpos.
  assert (Hn : 0 < bufferSize b) by lia.
  constructor; unfold consumed; cbn [buffer bufferSize head tail count ID].
  - exact Hsz.
  - exact Hal.
  - exact Hh.
  - apply Z.mod_pos_bound. exact Hn.
  - lia.
  - rewrite Hl, Zplus_mod_idemp_l. f_equal. lia.
  - exact Hi.
Qed.

Lemma step_wf o packet b :
  wf b -> exists a packet' b', step o packet b = Some (a, packet', b') /\ wf b'
                                /\ bufferSize b' = bufferSize b.
Proof.
  intros Hwf. destruct o as [v t| |]; cbn [step].
  - rewrite write_eq by exact Hwf.
    do 3 eexists. split; [reflexivity|]. split; [|reflexivity].
    apply written_wf. exact Hwf.
  - destruct (decide (0 < count b)) as [Hpos|Hz].
    + destruct (read_eq packet b Hwf Hpos) as (p & _ & Hr). rewrite Hr.
      do 3 eexists. split; [reflexivity|]. split; [|reflexivity].
      apply consumed_wf; assumption.
    + rewrite read_empty by (destruct Hwf; lia).
      do 3 eexists. split; [reflexivity|]. split; [exact Hwf|reflexivity].
  - rewrite available_eq.
    do 3 eexists. split; [reflexivity|]. split; [exact Hwf|reflexivity].
Qed.

Lemma run_wf ops : forall packet b,
  wf b -> exists answers packet' b',
    run ops packet b = Some (answers, packet', b') /\ wf b'
    /\ bufferSize b' = bufferSize b.
Proof.
  induction ops as [|o ops IH]; intros packet b Hwf; cbn [run].
  - do 3 eexists. split; [reflexivity|]. split; [exact Hwf|reflexivity].
  - destruct (step_wf o packet b Hwf) as (a & packet1 & b1 & Hs & Hwf1 & Hsz1).
    rewrite Hs.
    destruct (IH packet1 b1 Hwf1) as (answers & packet2 & b2 & Hr & Hwf2 & Hsz2).
    rewrite Hr. do 3 eexists. split; [reflexivity|]. split; [exact Hwf2|].
    congruence.
Qed.

(** ** The stored records *)

Lemma mod_shift_ne cap t k :
  0 <= t < cap -> 0 < k < cap -> (t + k) mod cap <> t.
Proof.
  intros Ht Hk Heq.
  destruct (decide (t + k < cap)) as [Hs|Hs].
  - rewrite Z.mod_small in Heq by lia. lia.
  - assert (Hu : t + k - cap = (t + k) mod cap).
    { apply (Z.mod_unique (t + k) cap 1); lia. }
    lia.
Qed.

(** Storing at the slot that follows [n] live slots appends to them. *)
Lemma live_insert_snoc (l : list DataPacket) cap p (n : nat) : forall t,
  Z.of_nat (length l) = cap -> 0 <= t < cap -> Z.of_nat n < cap ->
  live (<[Z.to_nat ((t + Z.of_nat n) mod cap) := p]> l) cap t (S n)
  = live l cap t n ++ [p].
Proof.
  induction n as [|n IH]; intros t Hal Ht Hn.
  - cbn [live Z.of_nat]. rewrite Z.add_0_r, Z.mod_small by lia.
    rewrite list_lookup_insert_eq by lia. reflexivity.
  - assert (Hne : Z.to_nat ((t + Z.of_nat (S n)) mod cap) <> Z.to_nat t).
    { intros Heq. apply (mod_shift_ne cap t (Z.of_nat (S n))); [lia|lia|].
      assert (0 <= (t + Z.of_nat (S n)) mod cap < cap)
        by (apply Z.mod_pos_bound; lia).
      lia. }
    destruct (slot_allocated l cap t Hal Ht) as [q Hq].
    change (live (<[Z.to_nat ((t + Z.of_nat (S n)) mod cap) := p]> l) cap t (S (S n)))
      with (match <[Z.to_nat ((t + Z.of_nat (S n)) mod cap) := p]> l !! Z.to_nat t with
            | Some p0 => p0 :: live (<[Z.to_nat ((t + Z.of_nat (S n)) mod cap) := p]> l)
                                    cap ((t + 1) mod cap) (S n)
            | None => []
            end).
    rewrite list_lookup_insert_ne by exact Hne. rewrite Hq.
    cbn [live]. rewrite Hq. cbn [app]. f_equal.
    replace ((t + Z.of_nat (S n)) mod cap)
      with (((t + 1) mod cap + Z.of_nat n) mod cap).
    + apply IH; [exact Hal| apply Z.mod_pos_bound; lia | lia].
    + rewrite Zplus_mod_idemp_l. f_equal. lia.
Qed.

Lemma live_length (l : list DataPacket) cap (n : nat) : forall t,
  0 < cap -> Z.of_nat (length l) = cap -> 0 <= t < cap ->
  length (live l cap t n) = n.
Proof.
  induction n as [|n IH]; intros t Hcap Hal Ht; cbn [live]; [reflexivity|].
  destruct (slot_allocated l cap t Hal Ht) as [q Hq]. rewrite Hq.
  cbn [length]. f_equal. apply IH; [exact Hcap|exact Hal|].
  apply Z.mod_pos_bound. exact Hcap.
Qed.

Lemma contents_length b : wf b -> Z.of_nat (length (contents b)) = count b.
Proof.
  intros [Hsz Hal Hh Ht Hc Hl Hi]. unfold contents.
  rewrite live_length by (lia || exact Hal). lia.
Qed.

(** A successful [read] hands out the oldest stored record and keeps the
    others in place. *)
Lemma contents_consumed b p :
  0 < count b -> buffer b !! Z.to_nat (tail b) = Some p ->
  contents b = p :: contents (consumed b).
Proof.
  intros Hpos Hp. unfold contents, consumed.
  cbn [buffer bufferSize head tail count ID].
  replace (Z.to_nat (count b)) with (S (Z.to_nat (count b - 1))) by lia.
  cbn [live]. rewrite Hp. reflexivity.
Qed.

(** A [write] into a buffer that is not full appends its record. *)
Lemma contents_written v t b :
  wf b -> count b < bufferSize b ->
  contents (written v t b) = contents b ++ [mkDataPacket (ID b) t v].
Proof.
  intros [Hsz Hal Hh Ht Hc Hl Hi] Hlt. unfold contents, written.
  cbn [buffer bufferSize head tail count ID].
  rewrite !decide_True by exact Hlt.
  replace (Z.to_nat (count b + 1)) with (S (Z.to_nat (count b))) by lia.
  rewrite Hl.
  replace (count b) with (Z.of_nat (Z.to_nat (count b))) at 1 by lia.
  apply live_insert_snoc; [exact Hal|exact Ht|lia].
Qed.

(** A [write] into a full buffer drops the oldest record and appends its
    own. *)
Lemma contents_written_full v t b :
  wf b -> count b = bufferSize b ->
  contents (written v t b) = drop 1 (contents b) ++ [mkDataPacket (ID b) t v].
Proof.
  intros [Hsz Hal Hh Ht Hc Hl Hi] Hfull. unfold contents, written.
  cbn [buffer bufferSize head tail count ID].
  rewrite !decide_False by lia.
  destruct (slot_allocated (buffer b) (bufferSize b) (tail b) Hal Ht) as [q Hq].
  replace (Z.to_nat (count b)) with (S (Z.to_nat (count b - 1))) by lia.
  cbn [live]. rewrite Hq. cbn [drop].
  replace (Z.to_nat (head b))
    with (Z.to_nat (((tail b + 1) mod bufferSize b + Z.of_nat (Z.to_nat (count b - 1)))
                    mod bufferSize b)).
  - apply live_insert_snoc; [exact Hal| apply Z.mod_pos_bound; lia | lia].
  - f_equal. rewrite Hl, Zplus_mod_idemp_l. f_equal. lia.
Qed.

(** Draining hands out the stored records, oldest first, and leaves the
    buffer empty. *)
Lemma drain_contents (fuel : nat) : forall packet b,
  wf b -> (Z.to_nat (count b) < fuel)%nat ->
  drain fuel packet b = Some (contents b, drained b).
Proof.
  induction fuel as [|fuel IH]; intros packet b Hwf Hfuel; [lia|].
  cbn [drain].
  destruct (decide (0 < count b)) as [Hpos|Hz].
  - destruct (read_eq packet b Hwf Hpos) as (p & Hp & Hr). rewrite Hr.
    rewrite (IH p (consumed b)).
    + rewrite (contents_consumed b p Hpos Hp). reflexivity.
    + apply consumed_wf; assumption.
    + cbn [consumed count]. lia.
  - assert (H0 : count b = 0) by (destruct Hwf; lia).
    rewrite read_empty by exact H0.
    destruct Hwf as [Hsz _ _ Ht _ Hl _].
    rewrite H0, Z.add_0_r, Z.mod_small in Hl by exact Ht.
    unfold contents, drained.
    destruct b as [l n h t c i]. cbn [buffer bufferSize head tail count ID] in *.
    subst c h. reflexivity.
Qed.

Lemma drained_wf b : wf b -> wf (drained b).
Proof.
  intros [Hsz Hal Hh Ht Hc Hl Hi].
  constructor; unfold drained; cbn [buffer bufferSize head tail count ID];
    try assumption; try lia.
  rewrite Z.add_0_r, Z.mod_small by exact Hh. reflexivity.
Qed.

(** ** Sequences of calls *)

(** Writes that fit: none overflows and the records line up behind the
    stored ones. *)
Lemma run_writes_fit (ws : list (Z * Z)) : forall packet b,
  wf b -> count b + Z.of_nat (length ws) <= bufferSize b ->
  exists b', run (writes_of ws) packet b
             = Some (map (fun _ => Overflow false) ws, packet, b') /\
             wf b' /\ count b' = count b + Z.of_nat (length ws) /\
             contents b' = contents b ++ packets_from (ID b) ws /\
             bufferSize b' = bufferSize b.
Proof.
  induction ws as [|w ws IH]; intros packet b Hwf Hfit.
  - exists b. cbn. rewrite app_nil_r.
    split; [reflexivity|]. split; [exact Hwf|]. split; [lia|].
    split; reflexivity.
  - cbn [length] in Hfit.
    assert (Hlt : count b < bufferSize b) by lia.
    cbn [writes_of map run step]. rewrite write_eq by exact Hwf.
    rewrite bool_decide_eq_false_2 by lia.
    destruct (IH packet (written (fst w) (snd w) b)) as (b' & Hr & Hwf' & Hc & Hk & Hs).
    + apply written_wf. exact Hwf.
    + unfold written. cbn [count bufferSize].
      rewrite decide_True by exact Hlt. lia.
    + unfold writes_of in Hr. rewrite Hr. exists b'.
      split; [reflexivity|]. split; [exact Hwf'|]. split.
      * rewrite Hc. unfold written. cbn [count length].
        rewrite decide_True by exact Hlt. lia.
      * split; [|exact Hs].
        rewrite Hk, (contents_written _ _ _ Hwf Hlt), <- app_assoc.
        reflexivity.
Qed.

(** The counter after a sequence of calls. *)
Lemma run_ID (ops : list op) : forall packet b,
  wf b ->
  exists answers packet' b',
    run ops packet b = Some (answers, packet', b') /\ wf b' /\
    ID b' = u32 (ID b + writes_in ops) /\ bufferSize b' = bufferSize b.
Proof.
  induction ops as [|o ops IH]; intros packet b Hwf.
  - do 3 eexists. split; [reflexivity|]. split; [exact Hwf|].
    split; [|reflexivity].
    cbn [writes_in]. unfold u32. rewrite Z.add_0_r, Z.mod_small; [reflexivity|].
    destruct Hwf; assumption.
  - destruct (step_wf o packet b Hwf) as (a & packet1 & b1 & Hs & Hwf1 & Hsz1).
    destruct (IH packet1 b1 Hwf1) as (answers & packet2 & b2 & Hr & Hwf2 & Hid & Hsz2).
    cbn [run]. rewrite Hs, Hr.
    do 3 eexists. split; [reflexivity|]. split; [exact Hwf2|].
    split; [|congruence].
    rewrite Hid. destruct o as [v t| |]; cbn [step writes_in] in *.
    + rewrite write_eq in Hs by exact Hwf. inversion Hs; subst.
      unfold written, u32. cbn [ID]. unfold u32.
      rewrite Zplus_mod_idemp_l. f_equal. lia.
    + destruct (decide (0 < count b)) as [Hpos|Hz].
      * destruct (read_eq packet b Hwf Hpos) as (p & _ & Hq).
        rewrite Hq in Hs. inversion Hs; subst. reflexivity.
      * rewrite read_empty in Hs by (destruct Hwf; lia).
        inversion Hs; subst. reflexivity.
    + rewrite available_eq in Hs. inversion Hs; subst. reflexivity.
Qed.

(** ** The records of a sequence of writes *)

Lemma packets_from_length i ws : length (packets_from i ws) = length ws.
Proof.
  revert i. induction ws as [|w ws IH]; intros i; cbn; [reflexivity|].
  rewrite IH. reflexivity.
Qed.

Lemma packets_from_value i ws : map value (packets_from i ws) = map fst ws.
Proof.
  revert i. induction ws as [|w ws IH]; intros i; cbn; [reflexivity|].
  rewrite IH. reflexivity.
Qed.

Lemma packets_from_timestamp i ws : map timestamp (packets_from i ws) = map snd ws.
Proof.
  revert i. induction ws as [|w ws IH]; intros i; cbn; [reflexivity|].
  rewrite IH. reflexivity.
Qed.

Lemma packets_from_id ws : forall i (k : nat) p,
  0 <= i < 2 ^ 32 ->
  packets_from i ws !! k = Some p -> id p = u32 (i + Z.of_nat k).
Proof.
  induction ws as [|w ws IH]; intros i k p Hi Hk; [discriminate|].
  destruct k as [|k]; cbn in Hk.
  - inversion Hk; subst. cbn [id packet_of].
    unfold u32. rewrite Z.add_0_r, Z.mod_small by exact Hi. reflexivity.
  - rewrite (IH _ _ _ (u32_range (i + 1)) Hk).
    unfold u32. rewrite Zplus_mod_idemp_l. f_equal. lia.
Qed.

Lemma packets_from_increasing ws : forall i,
  0 <= i -> i + Z.of_nat (length ws) <= 2 ^ 32 ->
  increasing (map id (packets_from i ws)).
Proof.
  induction ws as [|w ws IH]; intros i Hi Hfit; [exact I|].
  cbn [packets_from map increasing]. cbn [length] in Hfit.
  destruct ws as [|w' ws].
  - cbn. split; exact I.
  - cbn [length] in Hfit.
    assert (Hs : u32 (i + 1) = i + 1) by (unfold u32; apply Z.mod_small; lia).
    split.
    + cbn [packets_from map id packet_of]. lia.
    + apply IH; rewrite Hs; cbn [length]; lia.
Qed.

(** ** Well-formed concrete objects *)

(** The invariant of a closed object, by evaluation of its seven parts. *)
Ltac closed_wf :=
  constructor; vm_compute; try reflexivity; split; discriminate || reflexivity.

Lemma two_slots_wf : wf two_slots.
Proof. closed_wf. Qed.

Lemma one_stored_wf : wf one_stored.
Proof. closed_wf. Qed.

Lemma about_to_wrap_wf : wf about_to_wrap.
Proof. closed_wf. Qed.

(** ** write *)

(** C1.  On every buffer that satisfies the class invariant (which
    contains capacity > 0), [write value time] stores the record
    [{id: ID, timestamp: time, value}] at slot [head], advances [head] to
    [(head + 1) mod bufferSize] and increments [ID] (as a [uint32_t]).
    When [count < bufferSize] before the call it increments [count],
    leaves [tail] alone and returns [false]; otherwise it advances [tail]
    to [(tail + 1) mod bufferSize], which drops the oldest stored record,
    keeps [count] and returns [true]. *)
Theorem write_effect (v t : Z) (b : CircularBuffer) :
  wf b ->
  exists overflow b',
    write v t b = Some (overflow, b') /\
    buffer b' = <[Z.to_nat (head b) := mkDataPacket (ID b) t v]> (buffer b) /\
    buffer b' !! Z.to_nat (head b) = Some (mkDataPacket (ID b) t v) /\
    bufferSize b' = bufferSize b /\
    head b' = (head b + 1) mod bufferSize b /\
    ID b' = u32 (ID b + 1) /\
    (ID b < 2 ^ 32 - 1 -> ID b' = ID b + 1) /\
    (count b < bufferSize b ->
       overflow = false /\ count b' = count b + 1 /\ tail b' = tail b /\
       contents b' = contents b ++ [mkDataPacket (ID b) t v]) /\
    (~ count b < bufferSize b ->
       overflow = true /\ count b' = count b /\
       tail b' = (tail b + 1) mod bufferSize b /\
       contents b' = drop 1 (contents b) ++ [mkDataPacket (ID b) t v]).
Proof.
  intros Hwf. exists (bool_decide (bufferSize b <= count b)), (written v t b).
  split; [apply write_eq; exact Hwf|].
  split; [reflexivity|]. split.
  { unfold written. cbn [buffer]. apply list_lookup_insert_eq.
    destruct Hwf. lia. }
  split; [reflexivity|]. split; [reflexivity|]. split; [reflexivity|]. split.
  { intros Hid. unfold written, u32. cbn [ID]. apply Z.mod_small.
    destruct Hwf. lia. }
  split.
  - intros Hlt. rewrite bool_decide_eq_false_2 by lia.
    split; [reflexivity|]. unfold written at 1 2. cbn [count tail].
    rewrite !decide_True by exact Hlt.
    split; [reflexivity|]. split; [reflexivity|].
    apply contents_written; assumption.
  - intros Hge. rewrite bool_decide_eq_true_2 by lia.
    split; [reflexivity|]. unfold written at 1 2. cbn [count tail].
    rewrite !decide_False by exact Hge.
    split; [reflexivity|]. split; [reflexivity|].
    apply contents_written_full; [exact Hwf|destruct Hwf; lia].
Qed.

Lemma write_effect_witness :
  wf one_stored /\
  exists b', write 6 200 one_stored = Some (false, b') /\
             head b' = 0 /\ count b' = 2 /\ ID b' = 2 /\
             contents b' = [mkDataPacket 0 100 7; mkDataPacket 1 200 6].
Proof.
  split; [exact one_stored_wf|].
  destruct (write_effect 6 200 one_stored one_stored_wf)
    as (o & b' & Hw & _ & _ & _ & Hh & Hi & _ & Hlt & _).
  destruct Hlt as (Ho & Hc & _ & Hk); [vm_compute; reflexivity|].
  exists b'. rewrite Hw, Ho, Hh, Hc, Hi, Hk.
  repeat split; reflexivity.
Defined.

(** ** read *)

(** C2.  On every buffer that satisfies the class invariant and holds at
    least one record, [read] copies the record of slot [tail] to the
    caller's packet, advances [tail] to [(tail + 1) mod bufferSize],
    decrements [count] and returns [true]; the record it hands out is
    the oldest stored one, and the stored records after the call are
    exactly the others, in their order. *)
Theorem read_effect (packet : DataPacket) (b : CircularBuffer) :
  wf b -> 0 < count b ->
  exists p b',
    read packet b = Some ((true, p), b') /\
    buffer b !! Z.to_nat (tail b) = Some p /\
    tail b' = (tail b + 1) mod bufferSize b /\
    count b' = count b - 1 /\
    contents b = p :: contents b'.
Proof.
  intros Hwf Hpos. destruct (read_eq packet b Hwf Hpos) as (p & Hp & Hr).
  exists p, (consumed b). split; [exact Hr|]. split; [exact Hp|].
  split; [reflexivity|]. split; [reflexivity|].
  apply contents_consumed; assumption.
Qed.

Lemma read_effect_witness :
  wf one_stored /\ 0 < count one_stored /\
  exists b', read zero_packet one_stored = Some ((true, mkDataPacket 0 100 7), b') /\
             tail b' = 1 /\ count b' = 0.
Proof.
  assert (Hpos : 0 < count one_stored) by (vm_compute; reflexivity).
  split; [exact one_stored_wf|]. split; [exact Hpos|].
  destruct (read_effect zero_packet one_stored one_stored_wf Hpos)
    as (p & b' & Hr & Hp & Ht & Hc & _).
  exists b'. rewrite Hr, Ht, Hc.
  vm_compute in Hp. inversion Hp; subst p.
  repeat split; reflexivity.
Defined.

(** C10.  Frame of [read]: on every buffer that satisfies the class
    invariant and holds at least one record, a successful [read] leaves
    [head], [ID], [bufferSize] and every slot of the backing array as
    they were; only [tail], [count] and the caller's packet change. *)
Theorem read_frame (packet : DataPacket) (b : CircularBuffer) :
  wf b -> 0 < count b ->
  exists p b',
    read packet b = Some ((true, p), b') /\
    head b' = head b /\ ID b' = ID b /\
    buffer b' = buffer b /\ bufferSize b' = bufferSize b.
Proof.
  intros Hwf Hpos. destruct (read_eq packet b Hwf Hpos) as (p & _ & Hr).
  exists p, (consumed b). split; [exact Hr|].
  repeat split; reflexivity.
Qed.

Lemma read_frame_witness :
  wf one_stored /\ 0 < count one_stored /\
  exists p b', read zero_packet one_stored = Some ((true, p), b') /\
               head b' = 1 /\ ID b' = 1 /\
               buffer b' = [mkDataPacket 0 100 7; zero_packet].
Proof.
  assert (Hpos : 0 < count one_stored) by (vm_compute; reflexivity).
  split; [exact one_stored_wf|]. split; [exact Hpos|].
  destruct (read_frame zero_packet one_stored one_stored_wf Hpos)
    as (p & b' & Hr & Hh & Hi & Hb & _).
  exists p, b'. rewrite Hh, Hi, Hb. split; [exact Hr|].
  repeat split; reflexivity.
Defined.

(** C6.  On every buffer with [count == 0], [read] returns [false], hands
    the caller's packet back as it was and leaves every field of the
    buffer, the backing array included, unchanged. *)
Theorem read_empty_noop (packet : DataPacket) (b : CircularBuffer) :
  count b = 0 -> read packet b = Some ((false, packet), b).
Proof. apply read_empty. Qed.

Lemma read_empty_noop_witness :
  count two_slots = 0 /\
  read (mkDataPacket 1 2 3) two_slots = Some ((false, mkDataPacket 1 2 3), two_slots).
Proof.
  split; [reflexivity|].
  apply (read_empty_noop (mkDataPacket 1 2 3) two_slots). reflexivity.
Defined.

(** ** available *)

(** C8.  [available] returns [count] and leaves the buffer as it was, in
    every state; any number of calls in a row, with no [write] or [read]
    between them, all return that same value and leave the caller's
    packet and the buffer unchanged. *)
Theorem available_observational (b : CircularBuffer) :
  available b = Some (count b, b) /\
  forall (n : nat) (packet : DataPacket),
    run (replicate n Available) packet b
    = Some (replicate n (Count (count b)), packet, b).
Proof.
  split; [reflexivity|].
  intros n packet. induction n as [|n IH]; [reflexivity|].
  cbn [replicate run step]. rewrite available_eq, IH. reflexivity.
Qed.

(** ** Construction *)

(** C5, as the code has it.  The constructor checks nothing: for every
    requested size, zero included, it produces a buffer whose
    [bufferSize] is the requested size, unclamped, with that many slots
    and [head], [tail], [count] and [ID] at 0. *)
Theorem new_never_rejects (size : Z) (fresh : nat -> DataPacket) :
  exists b,
    CircularBuffer_new size fresh = Some b /\
    bufferSize b = size /\ length (buffer b) = Z.to_nat size /\
    head b = 0 /\ tail b = 0 /\ count b = 0 /\ ID b = 0.
Proof.
  eexists. split; [reflexivity|]. cbn [buffer bufferSize head tail count ID].
  rewrite length_map, length_seq. repeat split; reflexivity.
Qed.

(** C5 as stated fails: a zero capacity is not rejected, the constructor
    produces a buffer with no slot. *)
Lemma new_zero_not_rejected :
  CircularBuffer_new 0 blank <> None /\
  CircularBuffer_new 0 blank = Some (mkCircularBuffer [] 0 0 0 0 0).
Proof. split; [discriminate|reflexivity]. Qed.

(** On the buffer that a zero size produces, [write] is undefined: there
    is no slot at [head]. *)
Lemma write_after_new_zero (fresh : nat -> DataPacket) (v t : Z) (b : CircularBuffer) :
  CircularBuffer_new 0 fresh = Some b -> write v t b = None.
Proof. intros Hnew. inversion Hnew; subst b. reflexivity. Qed.

(** ** The invariant along every sequence of calls *)

(** C4.  For every buffer constructed with a capacity [size > 0] (a
    [uint16_t]) and every sequence of calls, after each call of the
    sequence (that is, after every prefix [take k ops]) the calls made so
    far are all defined and the buffer satisfies: [head] and [tail] in
    [[0, size)], [0 <= count <= size], [head = (tail + count) mod size];
    and [available] returns a value that does not exceed [size]. *)
Theorem invariant_preserved (size : Z) (fresh : nat -> DataPacket) :
  0 < size < 2 ^ 16 ->
  exists b0,
    CircularBuffer_new size fresh = Some b0 /\
    forall (ops : list op) (k : nat) (packet : DataPacket),
    exists answers packet' b,
      run (take k ops) packet b0 = Some (answers, packet', b) /\
      bufferSize b = size /\
      0 <= head b < size /\ 0 <= tail b < size /\ 0 <= count b <= size /\
      head b = (tail b + count b) mod size /\
      exists n, available b = Some (n, b) /\ 0 <= n <= size.
Proof.
  intros Hsz. destruct (new_wf size fresh Hsz) as (b0 & Hnew & Hwf0 & Hs0 & _).
  exists b0. split; [exact Hnew|]. intros ops k packet.
  destruct (run_wf (take k ops) packet b0 Hwf0) as (answers & packet' & b & Hr & Hwf & Hs).
  exists answers, packet', b. split; [exact Hr|].
  rewrite Hs0 in Hs. destruct Hwf as [_ _ Hh Ht Hc Hl _]. rewrite Hs in *.
  split; [reflexivity|]. split; [exact Hh|]. split; [exact Ht|].
  split; [exact Hc|]. split; [exact Hl|].
  exists (count b). split; [reflexivity|exact Hc].
Qed.

Lemma invariant_preserved_witness :
  0 < 2 < 2 ^ 16 /\
  exists answers packet' b,
    run [Write 7 100; Write 6 200; Write 5 300; Read] zero_packet two_slots
    = Some (answers, packet', b) /\
    0 <= head b < 2 /\ 0 <= tail b < 2 /\ 0 <= count b <= 2 /\
    head b = (tail b + count b) mod 2.
Proof.
  assert (Hsz : 0 < 2 < 2 ^ 16) by (split; reflexivity).
  split; [exact Hsz|].
  destruct (invariant_preserved 2 blank Hsz) as (b0 & Hnew & Hall).
  inversion Hnew; subst b0.
  destruct (Hall [Write 7 100; Write 6 200; Write 5 300; Read] 4%nat zero_packet)
    as (answers & packet' & b & Hr & _ & Hh & Ht & Hc & Hl & _).
  exists answers, packet', b. split; [exact Hr|].
  split; [exact Hh|]. split; [exact Ht|]. split; [exact Hc|exact Hl].
Defined.

(** ** The identifier counter *)

(** C9.  [ID] is a [uint32_t].  On every buffer that satisfies the class
    invariant a [write] is defined, stamps its record with [ID] and
    leaves [(ID + 1) mod 2^32] in the counter; in particular at
    [ID = 2^32 - 1] it succeeds like any other (its answer depends on
    [count] alone) and leaves 0.  After any
    sequence of calls on a buffer constructed with a capacity > 0 the
    counter is the number of writes made, modulo 2^32, so that the next
    write, the n-th since construction, stamps its record with
    [(n - 1) mod 2^32]. *)
Theorem id_counter_wraps :
  (forall (v t : Z) (b : CircularBuffer),
     wf b ->
     exists overflow b',
       write v t b = Some (overflow, b') /\
       overflow = bool_decide (bufferSize b <= count b) /\
       buffer b' !! Z.to_nat (head b) = Some (mkDataPacket (ID b) t v) /\
       ID b' = (ID b + 1) mod 2 ^ 32 /\
       (ID b = 2 ^ 32 - 1 -> ID b' = 0)) /\
  (forall (size : Z) (fresh : nat -> DataPacket) (ops : list op)
          (packet : DataPacket) (v t : Z),
     0 < size < 2 ^ 16 ->
     exists b0 answers packet' b overflow b',
       CircularBuffer_new size fresh = Some b0 /\
       run ops packet b0 = Some (answers, packet', b) /\
       ID b = writes_in ops mod 2 ^ 32 /\
       write v t b = Some (overflow, b') /\
       buffer b' !! Z.to_nat (head b)
       = Some (mkDataPacket (writes_in ops mod 2 ^ 32) t v) /\
       ID b' = (writes_in ops + 1) mod 2 ^ 32).
Proof.
  split.
  - intros v t b Hwf.
    exists (bool_decide (bufferSize b <= count b)), (written v t b).
    split; [apply write_eq; exact Hwf|]. split; [reflexivity|]. split.
    { unfold written. cbn [buffer]. apply list_lookup_insert_eq.
      destruct Hwf. lia. }
    split; [reflexivity|].
    intros Hmax. unfold written, u32. cbn [ID]. rewrite Hmax. reflexivity.
  - intros size fresh ops packet v t Hsz.
    destruct (new_wf size fresh Hsz) as (b0 & Hnew & Hwf0 & _ & _ & Hid0).
    destruct (run_ID ops packet b0 Hwf0) as (answers & packet' & b & Hr & Hwf & Hid & _).
    rewrite Hid0, Z.add_0_l in Hid. unfold u32 in Hid.
    exists b0, answers, packet', b,
      (bool_decide (bufferSize b <= count b)), (written v t b).
    split; [exact Hnew|]. split; [exact Hr|]. split; [exact Hid|].
    split; [apply write_eq; exact Hwf|]. split.
    { unfold written. cbn [buffer]. rewrite <- Hid.
      apply list_lookup_insert_eq. destruct Hwf. lia. }
    unfold written, u32. cbn [ID]. rewrite Hid, Zplus_mod_idemp_l. reflexivity.
Qed.

Lemma id_counter_wraps_witness :
  wf about_to_wrap /\ ID about_to_wrap = 2 ^ 32 - 1 /\
  exists overflow b', write 7 100 about_to_wrap = Some (overflow, b') /\ ID b' = 0.
Proof.
  assert (Hmax : ID about_to_wrap = 2 ^ 32 - 1) by reflexivity.
  split; [exact about_to_wrap_wf|]. split; [exact Hmax|].
  destruct id_counter_wraps as [Hone _].
  destruct (Hone 7 100 about_to_wrap about_to_wrap_wf) as (o & b' & Hw & _ & _ & _ & Hz).
  exists o, b'. split; [exact Hw|]. apply Hz. exact Hmax.
Defined.

(** ** Wrap-around of the indices *)

(** C7.  On a buffer constructed with capacity 4, six writes [v0 .. v5]
    answer overflow = false four times and then overflow = true twice;
    draining the buffer afterwards, with any fuel that allows five calls
    of [read], yields the records of [v2], [v3], [v4], [v5], in that
    order, and nothing else. *)
Theorem wraparound_capacity_4
  (fresh : nat -> DataPacket) (packet : DataPacket)
  (v0 v1 v2 v3 v4 v5 t0 t1 t2 t3 t4 t5 : Z) :
  exists b0 b6 b7,
    CircularBuffer_new 4 fresh = Some b0 /\
    run [Write v0 t0; Write v1 t1; Write v2 t2; Write v3 t3; Write v4 t4; Write v5 t5]
        packet b0
    = Some ([Overflow false; Overflow false; Overflow false; Overflow false;
             Overflow true; Overflow true], packet, b6) /\
    forall fuel : nat,
      (4 < fuel)%nat ->
      drain fuel packet b6
      = Some ([mkDataPacket 2 t2 v2; mkDataPacket 3 t3 v3;
               mkDataPacket 4 t4 v4; mkDataPacket 5 t5 v5], b7).
Proof.
  do 3 eexists. split; [reflexivity|]. split; [vm_compute; reflexivity|].
  intros fuel Hfuel.
  destruct fuel as [|[|[|[|[|fuel]]]]]; try lia.
  vm_compute. reflexivity.
Qed.

Lemma wraparound_capacity_4_witness :
  (4 < 5)%nat /\
  exists b6 b7,
    run [Write 10 0; Write 11 1; Write 12 2; Write 13 3; Write 14 4; Write 15 5]
        zero_packet (mkCircularBuffer (map blank (seq 0 4)) 4 0 0 0 0)
    = Some ([Overflow false; Overflow false; Overflow false; Overflow false;
             Overflow true; Overflow true], zero_packet, b6) /\
    drain 5 zero_packet b6
    = Some ([mkDataPacket 2 2 12; mkDataPacket 3 3 13;
             mkDataPacket 4 4 14; mkDataPacket 5 5 15], b7).
Proof.
  assert (Hfuel : (4 < 5)%nat) by lia.
  split; [exact Hfuel|].
  destruct (wraparound_capacity_4 blank zero_packet 10 11 12 13 14 15 0 1 2 3 4 5)
    as (b0 & b6 & b7 & Hnew & Hrun & Hdrain).
  inversion Hnew; subst b0.
  exists b6, b7. split; [exact Hrun|]. apply Hdrain. exact Hfuel.
Defined.

(** ** An empty buffer whose counter is about to wrap *)

Lemma run_app (ops1 ops2 : list op) : forall packet b a1 p1 b1 a2 p2 b2,
  run ops1 packet b = Some (a1, p1, b1) ->
  run ops2 p1 b1 = Some (a2, p2, b2) ->
  run (ops1 ++ ops2) packet b = Some (a1 ++ a2, p2, b2).
Proof.
  induction ops1 as [|o ops1 IH]; intros packet b a1 p1 b1 a2 p2 b2 H1 H2.
  - cbn in H1. inversion H1; subst. exact H2.
  - cbn [app run] in *.
    destruct (step o packet b) as [[[a p] b']|]; [|discriminate].
    destruct (run ops1 p b') as [[[a1' p1'] b1']|] eqn:Hr; [|discriminate].
    inversion H1; subst.
    rewrite (IH _ _ _ _ _ _ _ _ Hr H2). reflexivity.
Qed.

Lemma after_rounds_wf n : 1 <= n -> 2 * n < 2 ^ 32 -> wf (after_rounds n).
Proof.
  intros H1 H2. constructor; unfold after_rounds;
    cbn [buffer bufferSize head tail count ID length]; try lia.
  reflexivity.
Qed.

(** One round on an empty buffer: the record goes in and comes out, both
    indices move on by one slot. *)
Lemma one_round packet b :
  wf b -> count b = 0 ->
  run round packet b
  = Some ([Overflow false; Success true], mkDataPacket (ID b) 0 0,
          mkCircularBuffer (<[Z.to_nat (head b) := mkDataPacket (ID b) 0 0]> (buffer b))
                           (bufferSize b)
                           ((head b + 1) mod bufferSize b)
                           ((head b + 1) mod bufferSize b)
                           0 (u32 (ID b + 1))).
Proof.
  intros Hwf Hempty. unfold round. cbn [run step].
  rewrite write_eq by exact Hwf.
  assert (Hsame : tail b = head b).
  { destruct Hwf as [_ _ _ Ht _ Hl _].
    rewrite Hempty, Z.add_0_r, Z.mod_small in Hl by exact Ht. congruence. }
  assert (Hlt : count b < bufferSize b) by (destruct Hwf; lia).
  assert (Hone : count (written 0 0 b) = 1).
  { unfold written. cbn [count]. rewrite decide_True by exact Hlt. lia. }
  assert (Htail : tail (written 0 0 b) = head b).
  { unfold written. cbn [tail]. rewrite decide_True by exact Hlt. exact Hsame. }
  destruct (read_eq packet (written 0 0 b)) as (p & Hp & Hr);
    [apply written_wf; exact Hwf|lia|].
  rewrite Hr. rewrite Htail in Hp. unfold written in Hp. cbn [buffer] in Hp.
  rewrite list_lookup_insert_eq in Hp by (destruct Hwf; lia).
  inversion Hp; subst p.
  rewrite bool_decide_eq_false_2 by lia.
  unfold consumed. rewrite Hone, Htail. reflexivity.
Qed.

(** Two more rounds. *)
Lemma after_rounds_step n packet :
  1 <= n -> 2 * n + 2 < 2 ^ 32 ->
  exists answers packet',
    run (round ++ round) packet (after_rounds n)
    = Some (answers, packet', after_rounds (n + 1)).
Proof.
  intros H1 H2.
  pose proof (one_round packet (after_rounds n)) as Hfirst.
  unfold after_rounds at 2 3 4 5 6 7 in Hfirst.
  cbn [buffer bufferSize head tail count ID] in Hfirst.
  unfold u32 in Hfirst. rewrite (Z.mod_small (2 * n + 1)) in Hfirst by lia.
  change ((0 + 1) mod 2) with 1 in Hfirst.
  change (<[Z.to_nat 0 := ?x]> [?y; ?z]) with [x; z] in Hfirst.
  specialize (Hfirst (after_rounds_wf n ltac:(lia) ltac:(lia)) eq_refl).
  set (mid := mkCircularBuffer
                [mkDataPacket (2 * n) 0 0; mkDataPacket (2 * n - 1) 0 0]
                2 1 1 0 (2 * n + 1)) in *.
  assert (Hmid : wf mid).
  { constructor; unfold mid; cbn [buffer bufferSize head tail count ID length];
      try lia; reflexivity. }
  pose proof (one_round (mkDataPacket (2 * n) 0 0) mid Hmid eq_refl) as Hsecond.
  unfold mid at 2 3 4 5 6 7 in Hsecond.
  cbn [buffer bufferSize head tail count ID] in Hsecond.
  unfold u32 in Hsecond. rewrite (Z.mod_small (2 * n + 1 + 1)) in Hsecond by lia.
  change ((1 + 1) mod 2) with 0 in Hsecond.
  change (<[Z.to_nat 1 := ?x]> [?y; ?z]) with [y; x] in Hsecond.
  exists ([Overflow false; Success true] ++ [Overflow false; Success true]),
    (mkDataPacket (2 * n + 1) 0 0).
  etransitivity; [exact (run_app round round _ _ _ _ _ _ _ _ Hfirst Hsecond)|].
  unfold after_rounds. do 3 f_equal.
  - do 2 f_equal; f_equal; lia.
  - lia.
Qed.

(** Any number of pairs of rounds. *)
Lemma after_rounds_many (j : nat) : forall n packet,
  1 <= n -> 2 * (n + Z.of_nat j) < 2 ^ 32 ->
  exists answers packet',
    run (concat (replicate j (round ++ round))) packet (after_rounds n)
    = Some (answers, packet', after_rounds (n + Z.of_nat j)).
Proof.
  induction j as [|j IH]; intros n packet H1 H2.
  - exists [], packet. cbn [replicate concat run].
    rewrite Nat2Z.inj_0, Z.add_0_r. reflexivity.
  - destruct (after_rounds_step n packet) as (a1 & p1 & Hstep); [lia|lia|].
    destruct (IH (n + 1) p1) as (a2 & p2 & Hrest); [lia|lia|].
    exists (a1 ++ a2), p2. cbn [replicate concat].
    etransitivity; [exact (run_app _ _ _ _ _ _ _ _ _ _ Hstep Hrest)|].
    do 3 f_equal. lia.
Qed.

Lemma writes_in_app ops1 ops2 :
  writes_in (ops1 ++ ops2) = writes_in ops1 + writes_in ops2.
Proof.
  induction ops1 as [|o ops1 IH]; [reflexivity|].
  destruct o; cbn [app writes_in]; rewrite IH; lia.
Qed.

Lemma writes_in_rounds j : writes_in (rounds j) = 2 * Z.of_nat j + 3.
Proof.
  unfold rounds. rewrite !writes_in_app.
  assert (Hmid : writes_in (concat (replicate j (round ++ round))) = 2 * Z.of_nat j).
  { induction j as [|j IH]; [reflexivity|].
    cbn [replicate concat]. rewrite writes_in_app, IH.
    change (writes_in (round ++ round)) with 2. lia. }
  rewrite Hmid. change (writes_in round) with 1. lia.
Qed.

(** The buffer [about_to_wrap] is the buffer of capacity 2 that the
    constructor returns, after 4294967295 rounds. *)
Lemma about_to_wrap_reachable :
  exists ops answers packet,
    CircularBuffer_new 2 blank = Some two_slots /\
    writes_in ops = 4294967295 /\
    run ops zero_packet two_slots = Some (answers, packet, about_to_wrap).
Proof.
  assert (Hj : Z.of_nat (Z.to_nat 2147483646) = 2147483646)
    by (apply Z2Nat.id; discriminate).
  revert Hj. generalize (Z.to_nat 2147483646). intros j Hj.
  assert (Hstart : run (round ++ round) zero_packet two_slots
                   = Some ([Overflow false; Success true; Overflow false; Success true],
                           mkDataPacket 1 0 0, after_rounds 1))
    by reflexivity.
  destruct (after_rounds_many j 1 (mkDataPacket 1 0 0)) as (a2 & p2 & Hmany);
    [lia|lia|].
  rewrite Hj in Hmany.
  assert (Hlast : run round p2 (after_rounds (1 + 2147483646))
                  = Some ([Overflow false; Success true],
                          mkDataPacket 4294967294 0 0, about_to_wrap)).
  { rewrite one_round; [reflexivity| |reflexivity].
    apply after_rounds_wf; [discriminate|reflexivity]. }
  exists (rounds j),
    ([Overflow false; Success true; Overflow false; Success true]
       ++ a2 ++ [Overflow false; Success true]),
    (mkDataPacket 4294967294 0 0).
  split; [reflexivity|]. split.
  - rewrite writes_in_rounds, Hj. reflexivity.
  - unfold rounds.
    apply (run_app _ _ _ _ _ _ _ _ _ _ Hstart).
    apply (run_app _ _ _ _ _ _ _ _ _ _ Hmany Hlast).
Qed.

(** ** First in, first out *)

(** C3, as the code has it.  Starting from an empty buffer that satisfies
    the class invariant, a sequence [ws] of at most [bufferSize] writes
    (no read in between) never overflows; afterwards [available] returns
    the number of writes, and draining the buffer (with any fuel that
    allows one more [read] than there are records) returns one record per
    write, in the order of the writes, each with the value and the
    timestamp passed to its write.  The [id] of the k-th record is
    [(ID + k) mod 2^32] for the [ID] of the starting buffer; the ids are
    strictly increasing when [ID + length ws <= 2^32], which holds on a
    buffer that was just constructed. *)
Theorem fifo_within_capacity (ws : list (Z * Z)) (packet : DataPacket) (b : CircularBuffer) :
  wf b -> count b = 0 -> Z.of_nat (length ws) <= bufferSize b ->
  exists b1 b2 ps,
    run (writes_of ws) packet b
    = Some (map (fun _ => Overflow false) ws, packet, b1) /\
    available b1 = Some (Z.of_nat (length ws), b1) /\
    (forall fuel : nat, (length ws < fuel)%nat -> drain fuel packet b1 = Some (ps, b2)) /\
    count b2 = 0 /\
    length ps = length ws /\
    map value ps = map fst ws /\
    map timestamp ps = map snd ws /\
    (forall (k : nat) p, ps !! k = Some p -> id p = (ID b + Z.of_nat k) mod 2 ^ 32) /\
    (ID b + Z.of_nat (length ws) <= 2 ^ 32 -> increasing (map id ps)).
Proof.
  intros Hwf Hempty Hfit.
  destruct (run_writes_fit ws packet b Hwf) as (b1 & Hr & Hwf1 & Hc1 & Hk1 & Hs1);
    [lia|].
  assert (Hk : contents b1 = packets_from (ID b) ws).
  { rewrite Hk1. unfold contents. rewrite Hempty. reflexivity. }
  exists b1, (drained b1), (packets_from (ID b) ws).
  split; [exact Hr|]. split; [rewrite available_eq, Hc1, Hempty; reflexivity|].
  split.
  { intros fuel Hfuel. rewrite <- Hk. apply drain_contents; [exact Hwf1|lia]. }
  split; [reflexivity|].
  split; [apply packets_from_length|].
  split; [apply packets_from_value|].
  split; [apply packets_from_timestamp|].
  split.
  - intros k p Hp. apply (packets_from_id ws); [destruct Hwf; assumption|exact Hp].
  - intros Hnowrap. apply packets_from_increasing; [destruct Hwf; lia|exact Hnowrap].
Qed.

Lemma fifo_within_capacity_witness :
  wf two_slots /\ count two_slots = 0 /\ 2 <= bufferSize two_slots /\
  exists b1 b2,
    run [Write 7 100; Write 6 200] zero_packet two_slots
    = Some ([Overflow false; Overflow false], zero_packet, b1) /\
    available b1 = Some (2, b1) /\
    drain 3 zero_packet b1
    = Some ([mkDataPacket 0 100 7; mkDataPacket 1 200 6], b2).
Proof.
  assert (Hempty : count two_slots = 0) by reflexivity.
  assert (Hfit : Z.of_nat (length [(7, 100); (6, 200)]) <= bufferSize two_slots)
    by (vm_compute; discriminate).
  split; [exact two_slots_wf|]. split; [exact Hempty|].
  split; [vm_compute; discriminate|].
  destruct (fifo_within_capacity [(7, 100); (6, 200)] zero_packet two_slots
              two_slots_wf Hempty Hfit)
    as (b1 & b2 & ps & Hr & Ha & Hd & _).
  exists b1, b2. split; [exact Hr|]. split; [exact Ha|].
  specialize (Hd 3%nat). cbn [length] in Hd.
  assert (Hd3 : drain 3 zero_packet b1 = Some (ps, b2)) by (apply Hd; lia).
  rewrite Hd3. f_equal. f_equal.
  vm_compute in Hr. inversion Hr; subst b1.
  vm_compute in Hd3. inversion Hd3; subst. reflexivity.
Defined.

(** C3 as stated fails where the counter wraps.  The empty buffer
    [about_to_wrap] is one that calls of [write] and [read] produce from
    a constructed buffer; on it two writes fit, and draining returns them
    in order with their values and timestamps, but with the ids
    4294967295 and 0, which are not increasing. *)
Lemma fifo_ids_not_increasing_at_wrap :
  (exists ops answers packet,
     CircularBuffer_new 2 blank = Some two_slots /\
     run ops zero_packet two_slots = Some (answers, packet, about_to_wrap)) /\
  wf about_to_wrap /\ count about_to_wrap = 0 /\
  Z.of_nat (length [(7, 100); (6, 200)]) <= bufferSize about_to_wrap /\
  exists b1 b2,
    run (writes_of [(7, 100); (6, 200)]) zero_packet about_to_wrap
    = Some ([Overflow false; Overflow false], zero_packet, b1) /\
    drain 3 zero_packet b1
    = Some ([mkDataPacket 4294967295 100 7; mkDataPacket 0 200 6], b2) /\
    ~ increasing (map id [mkDataPacket 4294967295 100 7; mkDataPacket 0 200 6]).
Proof.
  split.
  { destruct about_to_wrap_reachable as (ops & answers & packet & Hnew & _ & Hr).
    exists ops, answers, packet. split; [exact Hnew|exact Hr]. }
  split; [exact about_to_wrap_wf|]. split; [reflexivity|].
  split; [vm_compute; discriminate|].
  do 2 eexists. split; [vm_compute; reflexivity|].
  split; [vm_compute; reflexivity|].
  cbn. intros [Hlt _]. discriminate Hlt.
Qed.

(** ** The ring against the bounded queue *)

Lemma contents_empty b : count b = 0 -> contents b = [].
Proof. intros H0. unfold contents. rewrite H0. reflexivity. Qed.

(** One call on the ring is one call on the queue of its stored
    records. *)
Lemma step_queue o packet b :
  wf b ->
  exists a packet' b',
    step o packet b = Some (a, packet', b') /\ wf b' /\
    bufferSize b' = bufferSize b /\
    queue_step (bufferSize b) o packet (contents b) (ID b)
    = (a, packet', contents b', ID b').
Proof.
  intros Hwf. pose proof (contents_length b Hwf) as Hlen.
  destruct o as [v t| |]; cbn [step queue_step].
  - rewrite write_eq by exact Hwf.
    do 3 eexists. split; [reflexivity|].
    split; [apply written_wf; exact Hwf|]. split; [reflexivity|].
    rewrite Hlen. destruct (decide (count b < bufferSize b)) as [Hlt|Hge].
    + rewrite bool_decide_eq_false_2 by lia.
      rewrite (contents_written v t b Hwf Hlt). reflexivity.
    + rewrite bool_decide_eq_true_2 by lia.
      rewrite (contents_written_full v t b Hwf) by (destruct Hwf; lia).
      reflexivity.
  - destruct (decide (0 < count b)) as [Hpos|Hz].
    + destruct (read_eq packet b Hwf Hpos) as (p & Hp & Hr). rewrite Hr.
      do 3 eexists. split; [reflexivity|].
      split; [apply consumed_wf; assumption|]. split; [reflexivity|].
      rewrite (contents_consumed b p Hpos Hp). reflexivity.
    + assert (H0 : count b = 0) by (destruct Hwf; lia).
      rewrite read_empty by exact H0.
      do 3 eexists. split; [reflexivity|]. split; [exact Hwf|].
      split; [reflexivity|]. rewrite (contents_empty b H0). reflexivity.
  - rewrite available_eq.
    do 3 eexists. split; [reflexivity|]. split; [exact Hwf|].
    split; [reflexivity|]. rewrite Hlen. reflexivity.
Qed.

Lemma run_queue (ops : list op) : forall packet b,
  wf b ->
  exists answers packet' b',
    run ops packet b = Some (answers, packet', b') /\ wf b' /\
    bufferSize b' = bufferSize b /\
    queue_run (bufferSize b) ops packet (contents b) (ID b)
    = (answers, packet', contents b', ID b').
Proof.
  induction ops as [|o ops IH]; intros packet b Hwf.
  - exists [], packet, b. repeat (split; [reflexivity || exact Hwf|]). reflexivity.
  - destruct (step_queue o packet b Hwf) as (a & p1 & b1 & Hs & Hwf1 & Hsz1 & Hq1).
    destruct (IH p1 b1 Hwf1) as (answers & p2 & b2 & Hr & Hwf2 & Hsz2 & Hq2).
    exists (a :: answers), p2, b2. cbn [run queue_run].
    rewrite Hs, Hr, Hq1. rewrite Hsz1 in Hq2. rewrite Hq2.
    split; [reflexivity|]. split; [exact Hwf2|]. split; [congruence|reflexivity].
Qed.

(** X1.  Refinement.  On every buffer that satisfies the class invariant,
    every sequence of calls is defined and answers as the bounded queue
    of the stored records does: same answers, same packet handed to the
    caller, same stored records and same counter afterwards. *)
Theorem ring_refines_queue (ops : list op) (packet : DataPacket) (b : CircularBuffer) :
  wf b ->
  exists answers packet' b',
    run ops packet b = Some (answers, packet', b') /\
    queue_run (bufferSize b) ops packet (contents b) (ID b)
    = (answers, packet', contents b', ID b').
Proof.
  intros Hwf.
  destruct (run_queue ops packet b Hwf) as (answers & packet' & b' & Hr & _ & _ & Hq).
  exists answers, packet', b'. split; [exact Hr|exact Hq].
Qed.

Lemma ring_refines_queue_witness :
  wf one_stored /\
  exists b',
    run [Write 6 200; Write 5 300; Read; Available] zero_packet one_stored
    = Some ([Overflow false; Overflow true; Success true; Count 1],
            mkDataPacket 1 200 6, b') /\
    contents b' = [mkDataPacket 2 300 5].
Proof.
  split; [exact one_stored_wf|].
  destruct (ring_refines_queue [Write 6 200; Write 5 300; Read; Available]
              zero_packet one_stored one_stored_wf)
    as (answers & packet' & b' & Hr & Hq).
  vm_compute in Hq. inversion Hq; subst answers packet'.
  exists b'. split; [exact Hr|]. symmetry. assumption.
Defined.

(** The write index after a sequence of calls. *)
Lemma run_head (ops : list op) : forall packet b,
  wf b ->
  exists answers packet' b',
    run ops packet b = Some (answers, packet', b') /\
    head b' = (head b + writes_in ops) mod bufferSize b.
Proof.
  induction ops as [|o ops IH]; intros packet b Hwf.
  - exists [], packet, b. split; [reflexivity|].
    cbn [writes_in]. rewrite Z.add_0_r. symmetry. apply Z.mod_small.
    destruct Hwf; assumption.
  - destruct (step_wf o packet b Hwf) as (a & p1 & b1 & Hs & Hwf1 & Hsz1).
    destruct (IH p1 b1 Hwf1) as (answers & p2 & b2 & Hr & Hh).
    exists (a :: answers), p2, b2. cbn [run]. rewrite Hs, Hr.
    split; [reflexivity|]. rewrite Hh, Hsz1.
    destruct o as [v t| |]; cbn [step writes_in] in *.
    + rewrite write_eq in Hs by exact Hwf. inversion Hs; subst.
      unfold written. cbn [head]. rewrite Zplus_mod_idemp_l. f_equal. lia.
    + destruct (decide (0 < count b)) as [Hpos|Hz].
      * destruct (read_eq packet b Hwf Hpos) as (p & _ & Hq).
        rewrite Hq in Hs. inversion Hs; subst. reflexivity.
      * rewrite read_empty in Hs by (destruct Hwf; lia).
        inversion Hs; subst. reflexivity.
    + rewrite available_eq in Hs. inversion Hs; subst. reflexivity.
Qed.

(** The read index is determined by the write index and the count. *)
Lemma tail_from_head b : wf b -> tail b = (head b - count b) mod bufferSize b.
Proof.
  intros [Hsz' _ _ Ht _ Hl _]. rewrite Hl, Zminus_mod_idemp_l.
  replace (tail b + count b - count b) with (tail b) by lia.
  symmetry. apply Z.mod_small. exact Ht.
Qed.

(** ** What the uninitialised slots do not do *)

(** X2.  The content that [new DataPacket[size]] leaves in the slots is
    never observed: two buffers constructed with the same capacity > 0
    over different memory give, for every sequence of calls, the same
    answers, the same packet in the caller's variable, the same stored
    records and the same indices, count and counter. *)
Theorem fresh_never_observed
  (size : Z) (fresh1 fresh2 : nat -> DataPacket) (ops : list op) (packet : DataPacket) :
  0 < size < 2 ^ 16 ->
  exists b01 b02 answers packet' b1 b2,
    CircularBuffer_new size fresh1 = Some b01 /\
    CircularBuffer_new size fresh2 = Some b02 /\
    run ops packet b01 = Some (answers, packet', b1) /\
    run ops packet b02 = Some (answers, packet', b2) /\
    contents b1 = contents b2 /\ ID b1 = ID b2 /\
    head b1 = head b2 /\ tail b1 = tail b2 /\ count b1 = count b2.
Proof.
  intros Hsz.
  destruct (new_wf size fresh1 Hsz) as (b01 & Hn1 & Hwf1 & Hs1 & Hc1 & Hi1).
  destruct (new_wf size fresh2 Hsz) as (b02 & Hn2 & Hwf2 & Hs2 & Hc2 & Hi2).
  destruct (run_queue ops packet b01 Hwf1) as (a1 & p1 & b1 & Hr1 & Hw1 & Hz1 & Hq1).
  destruct (run_queue ops packet b02 Hwf2) as (a2 & p2 & b2 & Hr2 & Hw2 & Hz2 & Hq2).
  rewrite (contents_empty b01 Hc1), Hs1, Hi1 in Hq1.
  rewrite (contents_empty b02 Hc2), Hs2, Hi2, Hq1 in Hq2.
  inversion Hq2; subst a2 p2.
  assert (Hcount : count b1 = count b2).
  { rewrite <- (contents_length b1 Hw1), <- (contents_length b2 Hw2). congruence. }
  assert (Hhead : head b1 = head b2).
  { destruct (run_head ops packet b01 Hwf1) as (a1' & p1' & b1' & Hr1' & Hh1).
    destruct (run_head ops packet b02 Hwf2) as (a2' & p2' & b2' & Hr2' & Hh2).
    rewrite Hr1 in Hr1'. rewrite Hr2 in Hr2'.
    inversion Hr1'; inversion Hr2'; subst.
    rewrite Hh1, Hh2, Hs2.
    inversion Hn1; inversion Hn2; subst. reflexivity. }
  exists b01, b02, a1, p1, b1, b2.
  repeat (split; [assumption|]). split; [|exact Hcount].
  rewrite (tail_from_head b1 Hw1), (tail_from_head b2 Hw2). congruence.
Qed.

Lemma fresh_never_observed_witness :
  0 < 2 < 2 ^ 16 /\
  exists answers packet' b1 b2,
    run [Write 7 100; Read; Read] zero_packet
        (mkCircularBuffer [mkDataPacket 1 1 1; mkDataPacket 2 2 2] 2 0 0 0 0)
    = Some (answers, packet', b1) /\
    run [Write 7 100; Read; Read] zero_packet two_slots
    = Some (answers, packet', b2) /\
    contents b1 = contents b2.
Proof.
  assert (Hsz : 0 < 2 < 2 ^ 16) by (split; reflexivity).
  split; [exact Hsz|].
  destruct (fresh_never_observed 2
              (fun i => mkDataPacket (Z.of_nat (S i)) (Z.of_nat (S i)) (Z.of_nat (S i)))
              blank [Write 7 100; Read; Read] zero_packet Hsz)
    as (b01 & b02 & answers & packet' & b1 & b2 & Hn1 & Hn2 & Hr1 & Hr2 & Hk & _).
  inversion Hn1; subst b01. inversion Hn2; subst b02.
  exists answers, packet', b1, b2.
  split; [exact Hr1|]. split; [exact Hr2|exact Hk].
Defined.

(** ** More on single calls *)

(** X3.  Frame of [write]: on every buffer that satisfies the class
    invariant, [write] changes no slot of the backing array but the one
    at [head], and changes neither [bufferSize] nor the number of
    slots. *)
Theorem write_frame (v t : Z) (b : CircularBuffer) :
  wf b ->
  exists overflow b',
    write v t b = Some (overflow, b') /\
    bufferSize b' = bufferSize b /\
    length (buffer b') = length (buffer b) /\
    forall j : nat, j <> Z.to_nat (head b) -> buffer b' !! j = buffer b !! j.
Proof.
  intros Hwf. exists (bool_decide (bufferSize b <= count b)), (written v t b).
  split; [apply write_eq; exact Hwf|]. split; [reflexivity|].
  unfold written. cbn [buffer]. split; [apply length_insert|].
  intros j Hj. apply list_lookup_insert_ne. congruence.
Qed.

Lemma write_frame_witness :
  wf one_stored /\
  exists overflow b',
    write 6 200 one_stored = Some (overflow, b') /\
    buffer b' !! 0%nat = Some (mkDataPacket 0 100 7).
Proof.
  split; [exact one_stored_wf|].
  destruct (write_frame 6 200 one_stored one_stored_wf)
    as (o & b' & Hw & _ & _ & Hj).
  exists o, b'. split; [exact Hw|].
  rewrite (Hj 0%nat); [reflexivity|]. vm_compute. discriminate.
Defined.

(** X4.  Round trip: on every empty buffer that satisfies the class
    invariant, [write value time] followed by [read] reports no
    overflow, then succeeds and hands out exactly the record
    [{ID, time, value}]; the buffer is empty again, both indices one slot
    further. *)
Theorem write_read_roundtrip (v t : Z) (packet : DataPacket) (b : CircularBuffer) :
  wf b -> count b = 0 ->
  exists b',
    run [Write v t; Read] packet b
    = Some ([Overflow false; Success true], mkDataPacket (ID b) t v, b') /\
    count b' = 0 /\
    head b' = (head b + 1) mod bufferSize b /\
    tail b' = (tail b + 1) mod bufferSize b /\
    contents b' = [].
Proof.
  intros Hwf Hempty. cbn [run step].
  rewrite write_eq by exact Hwf.
  assert (Hsame : tail b = head b).
  { destruct Hwf as [_ _ _ Ht _ Hl _].
    rewrite Hempty, Z.add_0_r, Z.mod_small in Hl by exact Ht. congruence. }
  assert (Hlt : count b < bufferSize b) by (destruct Hwf; lia).
  assert (Hone : count (written v t b) = 1).
  { unfold written. cbn [count]. rewrite decide_True by exact Hlt. lia. }
  assert (Htail : tail (written v t b) = head b).
  { unfold written. cbn [tail]. rewrite decide_True by exact Hlt. exact Hsame. }
  destruct (read_eq packet (written v t b)) as (p & Hp & Hr);
    [apply written_wf; exact Hwf|lia|].
  rewrite Hr. rewrite Htail in Hp. unfold written in Hp. cbn [buffer] in Hp.
  rewrite list_lookup_insert_eq in Hp by (destruct Hwf; lia).
  inversion Hp; subst p.
  rewrite bool_decide_eq_false_2 by lia.
  exists (consumed (written v t b)). split; [reflexivity|].
  split; [unfold consumed; cbn [count]; lia|].
  split; [reflexivity|]. split.
  - unfold consumed. cbn [tail bufferSize]. rewrite Htail, Hsame. reflexivity.
  - apply contents_empty. unfold consumed. cbn [count]. lia.
Qed.

Lemma write_read_roundtrip_witness :
  wf about_to_wrap /\ count about_to_wrap = 0 /\
  exists b',
    run [Write 7 100; Read] zero_packet about_to_wrap
    = Some ([Overflow false; Success true], mkDataPacket 4294967295 100 7, b') /\
    count b' = 0.
Proof.
  assert (Hempty : count about_to_wrap = 0) by reflexivity.
  split; [exact about_to_wrap_wf|]. split; [exact Hempty|].
  destruct (write_read_roundtrip 7 100 zero_packet about_to_wrap
              about_to_wrap_wf Hempty) as (b' & Hr & Hc & _).
  exists b'. split; [exact Hr|exact Hc].
Defined.

(** X5.  The producer and the consumer commute on a buffer that is
    neither empty nor full: with [0 < count < bufferSize], a [write]
    followed by a [read] and the same [read] followed by the same [write]
    hand out the same record and leave the same object. *)
Theorem write_read_commute (v t : Z) (packet : DataPacket) (b : CircularBuffer) :
  wf b -> 0 < count b < bufferSize b ->
  exists p b',
    run [Write v t; Read] packet b
    = Some ([Overflow false; Success true], p, b') /\
    run [Read; Write v t] packet b
    = Some ([Success true; Overflow false], p, b').
Proof.
  intros Hwf [Hpos Hlt]. cbn [run step].
  rewrite write_eq by exact Hwf.
  destruct (read_eq packet b Hwf Hpos) as (p & Hp & Hr). rewrite Hr.
  rewrite (write_eq v t (consumed b)) by (apply consumed_wf; assumption).
  assert (Hone : 0 < count (written v t b)).
  { unfold written. cbn [count]. rewrite decide_True by exact Hlt. lia. }
  destruct (read_eq packet (written v t b)) as (p' & Hp' & Hr');
    [apply written_wf; exact Hwf|exact Hone|].
  rewrite Hr'.
  assert (Hpp : p' = p).
  { unfold written in Hp'. cbn [buffer tail] in Hp'.
    rewrite decide_True in Hp' by exact Hlt.
    rewrite list_lookup_insert_ne in Hp'; [congruence|].
    destruct Hwf as [Hsz _ Hh Ht Hc Hl _]. intros Heq.
    apply (mod_shift_ne (bufferSize b) (tail b) (count b)); [lia|lia|].
    rewrite <- Hl. lia. }
  subst p'. exists p, (consumed (written v t b)).
  rewrite bool_decide_eq_false_2 by lia.
  split; [reflexivity|].
  rewrite bool_decide_eq_false_2 by (unfold consumed; cbn [count bufferSize]; lia).
  do 3 f_equal. unfold consumed, written.
  cbn [buffer bufferSize head tail count ID].
  rewrite !decide_True by lia. f_equal. lia.
Qed.

Lemma write_read_commute_witness :
  wf (mkCircularBuffer [mkDataPacket 0 100 7; zero_packet; zero_packet] 3 1 0 1 1) /\
  0 < 1 < 3 /\
  exists p b',
    run [Write 6 200; Read] zero_packet
        (mkCircularBuffer [mkDataPacket 0 100 7; zero_packet; zero_packet] 3 1 0 1 1)
    = Some ([Overflow false; Success true], p, b') /\
    run [Read; Write 6 200] zero_packet
        (mkCircularBuffer [mkDataPacket 0 100 7; zero_packet; zero_packet] 3 1 0 1 1)
    = Some ([Success true; Overflow false], p, b').
Proof.
  assert (Hwf : wf (mkCircularBuffer [mkDataPacket 0 100 7; zero_packet; zero_packet]
                                     3 1 0 1 1)) by closed_wf.
  assert (Hmid : 0 < 1 < 3) by (split; reflexivity).
  split; [exact Hwf|]. split; [exact Hmid|].
  exact (write_read_commute 6 200 zero_packet _ Hwf Hmid).
Defined.

(** X6.  On the buffer that the constructor produces for size 0, every
    [write] is undefined (there is no slot at [head], and the remainder
    has a zero divisor), while [read] returns [false] without touching
    the caller's packet and [available] returns 0. *)
Theorem zero_capacity_calls
  (fresh : nat -> DataPacket) (v t : Z) (packet : DataPacket) :
  exists b,
    CircularBuffer_new 0 fresh = Some b /\
    write v t b = None /\
    read packet b = Some ((false, packet), b) /\
    available b = Some (0, b).
Proof. eexists. repeat split; reflexivity. Qed.

(** ** Writes beyond the capacity *)

Lemma drop_snoc_full (q : list DataPacket) (p : DataPacket) (rest : list DataPacket)
      (cap : nat) :
  length q = cap -> (0 < cap)%nat ->
  let all := q ++ p :: rest in
  let all' := (drop 1 q ++ [p]) ++ rest in
  drop (length all' - cap) all' = drop (length all - cap) all.
Proof.
  intros Hlen Hcap all all'.
  assert (Hall : all' = drop 1 all).
  { unfold all, all'. destruct q as [|x q]; [cbn in Hlen; lia|].
    cbn [drop app]. rewrite drop_0, <- app_assoc. reflexivity. }
  assert (Hl : length all = (cap + S (length rest))%nat).
  { unfold all. rewrite length_app. cbn [length]. lia. }
  rewrite Hall, drop_drop, length_drop. f_equal. lia.
Qed.

(** Any number of writes: the stored records are the most recent ones. *)
Lemma run_writes_any (ws : list (Z * Z)) : forall packet b,
  wf b ->
  exists b',
    run (writes_of ws) packet b
    = Some (map (fun k : nat =>
                   Overflow (bool_decide (bufferSize b <= count b + Z.of_nat k)))
                (seq 0 (length ws)), packet, b') /\
    wf b' /\ bufferSize b' = bufferSize b /\
    count b' = Z.min (bufferSize b) (count b + Z.of_nat (length ws)) /\
    contents b'
    = drop (length (contents b ++ packets_from (ID b) ws) - Z.to_nat (bufferSize b))
           (contents b ++ packets_from (ID b) ws).
Proof.
  induction ws as [|w ws IH]; intros packet b Hwf.
  - exists b. cbn [writes_of map run length seq packets_from].
    pose proof (contents_length b Hwf) as Hlen.
    split; [reflexivity|]. split; [exact Hwf|]. split; [reflexivity|].
    split; [destruct Hwf; lia|].
    rewrite app_nil_r.
    replace (length (contents b) - Z.to_nat (bufferSize b))%nat with 0%nat
      by (destruct Hwf; lia).
    reflexivity.
  - pose proof (contents_length b Hwf) as Hlen.
    pose proof (written_wf (fst w) (snd w) b Hwf) as Hwf1.
    destruct (IH packet (written (fst w) (snd w) b) Hwf1)
      as (b' & Hr & Hwf' & Hs & Hc & Hk).
    exists b'. cbn [writes_of map run step length seq].
    rewrite write_eq by exact Hwf. unfold writes_of in Hr. rewrite Hr.
    assert (Hcnt : count (written (fst w) (snd w) b)
                   = Z.min (bufferSize b) (count b + 1)).
    { unfold written. cbn [count].
      destruct (decide (count b < bufferSize b)); destruct Hwf; lia. }
    cbn [bufferSize written] in Hs, Hc, Hr |- *.
    split.
    { rewrite <- seq_shift, map_map. change (Z.of_nat 0) with 0.
      rewrite Z.add_0_r. do 3 f_equal. f_equal. apply map_ext. intros k.
      f_equal. apply bool_decide_ext. rewrite Hcnt. destruct Hwf. lia. }
    split; [exact Hwf'|]. split; [exact Hs|]. split.
    { rewrite Hc, Hcnt. destruct Hwf. lia. }
    rewrite Hk. cbn [packets_from ID written bufferSize].
    destruct (decide (count b < bufferSize b)) as [Hlt|Hge].
    + rewrite (contents_written _ _ _ Hwf Hlt), <- app_assoc. reflexivity.
    + rewrite (contents_written_full _ _ _ Hwf) by (destruct Hwf; lia).
      apply (drop_snoc_full (contents b) (packet_of (ID b) w)
               (packets_from (u32 (ID b + 1)) ws) (Z.to_nat (bufferSize b)));
        destruct Hwf; lia.
Qed.

(** X7.  Any number of writes in a row, on a buffer that satisfies the
    class invariant: the k-th write (k from 0) reports an overflow
    exactly when [bufferSize <= count + k]; afterwards [count] is
    [min bufferSize (count + number of writes)] and the stored records
    are the last [bufferSize] of the old stored records followed by the
    written ones, in order. *)
Theorem writes_keep_most_recent
  (ws : list (Z * Z)) (packet : DataPacket) (b : CircularBuffer) :
  wf b ->
  exists b',
    run (writes_of ws) packet b
    = Some (map (fun k : nat =>
                   Overflow (bool_decide (bufferSize b <= count b + Z.of_nat k)))
                (seq 0 (length ws)), packet, b') /\
    available b' = Some (Z.min (bufferSize b) (count b + Z.of_nat (length ws)), b') /\
    contents b'
    = drop (length (contents b ++ packets_from (ID b) ws) - Z.to_nat (bufferSize b))
           (contents b ++ packets_from (ID b) ws).
Proof.
  intros Hwf.
  destruct (run_writes_any ws packet b Hwf) as (b' & Hr & _ & _ & Hc & Hk).
  exists b'. split; [exact Hr|]. split; [|exact Hk].
  rewrite available_eq, Hc. reflexivity.
Qed.

Lemma writes_keep_most_recent_witness :
  wf one_stored /\
  exists b',
    run [Write 6 200; Write 5 300; Write 4 400] zero_packet one_stored
    = Some ([Overflow false; Overflow true; Overflow true], zero_packet, b') /\
    available b' = Some (2, b') /\
    contents b' = [mkDataPacket 2 300 5; mkDataPacket 3 400 4].
Proof.
  split; [exact one_stored_wf|].
  destruct (writes_keep_most_recent [(6, 200); (5, 300); (4, 400)]
              zero_packet one_stored one_stored_wf) as (b' & Hr & Ha & Hk).
  exists b'. split; [exact Hr|]. split; [exact Ha|exact Hk].
Defined.

(** ** The consumer's loop *)

(** X8.  On every buffer that satisfies the class invariant, the
    consumer's loop ends after [count] successful reads and one failed
    one: with any fuel above [count] it returns the [count] stored
    records, oldest first, and leaves a buffer with [count = 0] and
    [tail = head], whose array, [head] and [ID] are untouched and on
    which [read] returns [false]. *)
Theorem drain_returns_all (fuel : nat) (packet : DataPacket) (b : CircularBuffer) :
  wf b -> (Z.to_nat (count b) < fuel)%nat ->
  exists ps b',
    drain fuel packet b = Some (ps, b') /\
    ps = contents b /\ Z.of_nat (length ps) = count b /\
    count b' = 0 /\ tail b' = head b /\ head b' = head b /\
    ID b' = ID b /\ buffer b' = buffer b /\
    forall packet', read packet' b' = Some ((false, packet'), b').
Proof.
  intros Hwf Hfuel. exists (contents b), (drained b).
  split; [apply drain_contents; assumption|]. split; [reflexivity|].
  split; [apply contents_length; exact Hwf|].
  repeat (split; [reflexivity|]).
  intros packet'. apply read_empty. reflexivity.
Qed.

Lemma drain_returns_all_witness :
  wf one_stored /\ (Z.to_nat (count one_stored) < 2)%nat /\
  exists b', drain 2 zero_packet one_stored = Some ([mkDataPacket 0 100 7], b') /\
             count b' = 0.
Proof.
  assert (Hfuel : (Z.to_nat (count one_stored) < 2)%nat) by (vm_compute; lia).
  split; [exact one_stored_wf|]. split; [exact Hfuel|].
  destruct (drain_returns_all 2 zero_packet one_stored one_stored_wf Hfuel)
    as (ps & b' & Hd & Hps & _ & Hc & _).
  exists b'. rewrite Hd, Hps. split; [reflexivity|exact Hc].
Defined.

(** ** Accounting *)

(** X9.  No write is lost unaccounted: after every sequence of calls on a
    buffer that satisfies the class invariant, the number of writes made
    is the growth of [count] plus the number of overflows reported plus
    the number of successful reads. *)
Theorem writes_accounted (ops : list op) : forall (packet : DataPacket) (b : CircularBuffer),
  wf b ->
  exists answers packet' b',
    run ops packet b = Some (answers, packet', b') /\
    writes_in ops = count b' - count b + overflows answers + reads_done answers.
Proof.
  induction ops as [|o ops IH]; intros packet b Hwf.
  - exists [], packet, b. split; [reflexivity|]. cbn. lia.
  - destruct (step_wf o packet b Hwf) as (a & p1 & b1 & Hs & Hwf1 & _).
    destruct (IH p1 b1 Hwf1) as (answers & p2 & b2 & Hr & Hacc).
    exists (a :: answers), p2, b2. cbn [run]. rewrite Hs, Hr.
    split; [reflexivity|].
    destruct o as [v t| |]; cbn [step writes_in] in *.
    + rewrite write_eq in Hs by exact Hwf. inversion Hs; subst a p1 b1.
      unfold written in Hacc. cbn [count] in Hacc.
      destruct (decide (count b < bufferSize b)) as [Hlt|Hge].
      * rewrite bool_decide_eq_false_2 by lia. cbn [overflows reads_done]. lia.
      * rewrite bool_decide_eq_true_2 by lia. cbn [overflows reads_done]. lia.
    + destruct (decide (0 < count b)) as [Hpos|Hz].
      * destruct (read_eq packet b Hwf Hpos) as (p & _ & Hq).
        rewrite Hq in Hs. inversion Hs; subst a p1 b1.
        cbn [overflows reads_done consumed count] in *. lia.
      * rewrite read_empty in Hs by (destruct Hwf; lia).
        inversion Hs; subst a p1 b1. cbn [overflows reads_done]. lia.
    + rewrite available_eq in Hs. inversion Hs; subst a p1 b1.
      cbn [overflows reads_done]. lia.
Qed.

Lemma writes_accounted_witness :
  wf two_slots /\
  exists answers packet' b',
    run [Write 7 100; Write 6 200; Write 5 300; Read; Available] zero_packet two_slots
    = Some (answers, packet', b') /\
    3 = count b' - 0 + overflows answers + reads_done answers.
Proof.
  split; [exact two_slots_wf|].
  exact (writes_accounted [Write 7 100; Write 6 200; Write 5 300; Read; Available]
           zero_packet two_slots two_slots_wf).
Defined.

(** ** The identifiers of the stored records *)

Lemma u32_add_l a x : u32 (u32 a + x) = u32 (a + x).
Proof. unfold u32. apply Zplus_mod_idemp_l. Qed.

Lemma u32_shift a y x : u32 (u32 a - y + x) = u32 (a - y + x).
Proof.
  replace (u32 a - y + x) with (u32 a + (x - y)) by lia.
  rewrite u32_add_l. f_equal. lia.
Qed.

Lemma u32_small x : 0 <= x < 2 ^ 32 -> u32 x = x.
Proof. intros H. unfold u32. apply Z.mod_small. exact H. Qed.

(** A step of the queue keeps the identifiers consecutive. *)
Lemma queue_step_ids cap o packet q i a packet' q' i' :
  0 <= i < 2 ^ 32 ->
  ids_consecutive q i ->
  queue_step cap o packet q i = (a, packet', q', i') ->
  0 <= i' < 2 ^ 32 /\ ids_consecutive q' i'.
Proof.
  intros Hi Hq Hstep. destruct o as [v t| |]; cbn [queue_step] in Hstep.
  - assert (Hnew : forall q0 : list DataPacket,
               (forall (k : nat) p, q0 !! k = Some p ->
                  id p = u32 (i + 1 - Z.of_nat (S (length q0)) + Z.of_nat k)) ->
               ids_consecutive (q0 ++ [mkDataPacket i t v]) (u32 (i + 1))).
    { intros q0 Hq0 k p Hk. rewrite length_app. cbn [length].
      rewrite u32_shift.
      apply lookup_app_Some in Hk as [Hk|[Hge Hk]].
      - rewrite (Hq0 k p Hk). f_equal. lia.
      - apply list_lookup_singleton_Some in Hk as [Hk0 Hp]. subst p.
        cbn [id]. symmetry. rewrite <- (u32_small i Hi) at 2. f_equal. lia. }
    destruct (decide (Z.of_nat (length q) < cap)); inversion Hstep; subst.
    + split; [apply u32_range|]. apply Hnew. intros k p Hk.
      rewrite (Hq k p Hk). f_equal. lia.
    + split; [apply u32_range|]. apply Hnew. intros k p Hk.
      rewrite lookup_drop in Hk. pose proof (lookup_lt_Some _ _ _ Hk) as Hlt.
      rewrite (Hq _ p Hk), length_drop. f_equal. lia.
  - destruct q as [|p0 q0]; inversion Hstep; subst.
    + split; [exact Hi|]. intros k p Hk. discriminate.
    + split; [exact Hi|]. intros k p Hk.
      rewrite (Hq (S k) p Hk). cbn [length]. f_equal. lia.
  - inversion Hstep; subst. split; assumption.
Qed.

Lemma queue_run_ids cap (ops : list op) : forall packet q i answers packet' q' i',
  0 <= i < 2 ^ 32 ->
  ids_consecutive q i ->
  queue_run cap ops packet q i = (answers, packet', q', i') ->
  ids_consecutive q' i'.
Proof.
  induction ops as [|o ops IH]; intros packet q i answers packet' q' i' Hi Hq Hrun.
  - cbn in Hrun. inversion Hrun; subst. exact Hq.
  - cbn [queue_run] in Hrun.
    destruct (queue_step cap o packet q i) as [[[a p1] q1] i1] eqn:Hstep.
    destruct (queue_run cap ops p1 q1 i1) as [[[as2 p2] q2] i2] eqn:Hrest.
    inversion Hrun; subst.
    destruct (queue_step_ids _ _ _ _ _ _ _ _ _ Hi Hq Hstep) as [Hi1 Hq1].
    exact (IH _ _ _ _ _ _ _ Hi1 Hq1 Hrest).
Qed.

Lemma u32_inj_near a k1 k2 :
  0 <= k1 < 2 ^ 32 -> 0 <= k2 < 2 ^ 32 -> u32 (a + k1) = u32 (a + k2) -> k1 = k2.
Proof.
  unfold u32. intros H1 H2 Heq.
  pose proof (Z.div_mod (a + k1) (2 ^ 32) ltac:(discriminate)) as E1.
  pose proof (Z.div_mod (a + k2) (2 ^ 32) ltac:(discriminate)) as E2.
  rewrite Heq in E1.
  change (2 ^ 32) with 4294967296 in *. lia.
Qed.

(** X10.  In every buffer reached from the constructor (capacity > 0) by
    any sequence of calls, the identifiers of the stored records follow
    one another modulo 2^32 and end just before [ID]: the k-th stored
    record (k from 0) has the identifier [(ID - count + k) mod 2^32].
    Hence no two stored records share an identifier, also when the
    counter has wrapped. *)
Theorem stored_ids_distinct
  (size : Z) (fresh : nat -> DataPacket) (ops : list op) (packet : DataPacket) :
  0 < size < 2 ^ 16 ->
  exists b0 answers packet' b,
    CircularBuffer_new size fresh = Some b0 /\
    run ops packet b0 = Some (answers, packet', b) /\
    (forall (k : nat) p,
       contents b !! k = Some p -> id p = (ID b - count b + Z.of_nat k) mod 2 ^ 32) /\
    (forall (k1 k2 : nat) p1 p2,
       contents b !! k1 = Some p1 -> contents b !! k2 = Some p2 ->
       id p1 = id p2 -> k1 = k2).
Proof.
  intros Hsz.
  destruct (new_wf size fresh Hsz) as (b0 & Hnew & Hwf0 & Hs0 & Hc0 & Hi0).
  destruct (run_queue ops packet b0 Hwf0) as (answers & packet' & b & Hr & Hwf & Hs & Hq).
  rewrite (contents_empty b0 Hc0), Hi0 in Hq.
  assert (Hids : ids_consecutive (contents b) (ID b)).
  { assert (H0 : 0 <= 0 < 2 ^ 32) by (split; [discriminate|reflexivity]).
    assert (Hnil : ids_consecutive [] 0) by (intros k p Hk; discriminate).
    exact (queue_run_ids _ _ _ _ _ _ _ _ _ H0 Hnil Hq). }
  pose proof (contents_length b Hwf) as Hlen.
  assert (Hform : forall (k : nat) p,
             contents b !! k = Some p -> id p = u32 (ID b - count b + Z.of_nat k)).
  { intros k p Hk. rewrite (Hids k p Hk), Hlen. reflexivity. }
  exists b0, answers, packet', b.
  split; [exact Hnew|]. split; [exact Hr|]. split; [exact Hform|].
  intros k1 k2 p1 p2 H1 H2 Heq.
  rewrite (Hform k1 p1 H1), (Hform k2 p2 H2) in Heq.
  pose proof (lookup_lt_Some _ _ _ H1) as L1.
  pose proof (lookup_lt_Some _ _ _ H2) as L2.
  assert (Hcap : count b < 2 ^ 32).
  { destruct Hwf as [Hz _ _ _ Hc _ _].
    change (2 ^ 16) with 65536 in Hz. change (2 ^ 32) with 4294967296. lia. }
  apply Nat2Z.inj.
  apply (u32_inj_near (ID b - count b)); [lia|lia|exact Heq].
Qed.

Lemma stored_ids_distinct_witness :
  0 < 2 < 2 ^ 16 /\
  exists answers packet' b,
    run [Write 7 100; Write 6 200; Write 5 300] zero_packet two_slots
    = Some (answers, packet', b) /\
    forall (k1 k2 : nat) p1 p2,
      contents b !! k1 = Some p1 -> contents b !! k2 = Some p2 ->
      id p1 = id p2 -> k1 = k2.
Proof.
  assert (Hsz : 0 < 2 < 2 ^ 16) by (split; reflexivity).
  split; [exact Hsz|].
  destruct (stored_ids_distinct 2 blank [Write 7 100; Write 6 200; Write 5 300]
              zero_packet Hsz)
    as (b0 & answers & packet' & b & Hnew & Hr & _ & Hd).
  inversion Hnew; subst b0.
  exists answers, packet', b. split; [exact Hr|exact Hd].
Defined.

(** ** The write index *)

(** X11.  Slots are used in rotation: after any sequence of calls on a
    buffer constructed with a capacity [size > 0], [head] is the number
    of writes made so far modulo [size], whatever the reads in between;
    the next write stores into that slot. *)
Theorem head_counts_writes
  (size : Z) (fresh : nat -> DataPacket) (ops : list op) (packet : DataPacket) (v t : Z) :
  0 < size < 2 ^ 16 ->
  exists b0 answers packet' b overflow b',
    CircularBuffer_new size fresh = Some b0 /\
    run ops packet b0 = Some (answers, packet', b) /\
    head b = writes_in ops mod size /\
    write v t b = Some (overflow, b') /\
    buffer b' !! Z.to_nat (writes_in ops mod size)
    = Some (mkDataPacket (ID b) t v).
Proof.
  intros Hsz.
  destruct (new_wf size fresh Hsz) as (b0 & Hnew & Hwf0 & Hs0 & _ & _).
  destruct (run_head ops packet b0 Hwf0) as (answers & packet' & b & Hr & Hh).
  destruct (run_wf ops packet b0 Hwf0) as (answers' & packet'' & b'' & Hr' & Hwf & _).
  rewrite Hr in Hr'. inversion Hr'; subst answers' packet'' b''.
  assert (Hhead : head b = writes_in ops mod size).
  { rewrite Hh, Hs0. inversion Hnew; subst b0. reflexivity. }
  exists b0, answers, packet', b,
    (bool_decide (bufferSize b <= count b)), (written v t b).
  split; [exact Hnew|]. split; [exact Hr|]. split; [exact Hhead|].
  split; [apply write_eq; exact Hwf|].
  rewrite <- Hhead. unfold written. cbn [buffer].
  apply list_lookup_insert_eq. destruct Hwf. lia.
Qed.

Lemma head_counts_writes_witness :
  0 < 2 < 2 ^ 16 /\
  exists answers packet' b,
    run [Write 7 100; Read; Write 6 200; Write 5 300] zero_packet two_slots
    = Some (answers, packet', b) /\
    head b = 1.
Proof.
  assert (Hsz : 0 < 2 < 2 ^ 16) by (split; reflexivity).
  split; [exact Hsz|].
  destruct (head_counts_writes 2 blank [Write 7 100; Read; Write 6 200; Write 5 300]
              zero_packet 0 0 Hsz)
    as (b0 & answers & packet' & b & o & b' & Hnew & Hr & Hh & _).
  inversion Hnew; subst b0.
  exists answers, packet', b. split; [exact Hr|exact Hh].
Defined.
